(** * Scopy: a shallow embedding of [scopy.py] and its specification

    The development follows the [Scopy] class of [scopy.py]: file discovery
    with filter predicates, multi-key sorting, width-constrained formatting
    and output.  Python strings are lists of characters; the embedding covers
    ASCII text (characters above 127 are carried around unchanged and count
    as neither letters nor white space).  Python integers are [Z]; the float
    that [_convert_bytes] divides is an exact rational, which is what the
    binary float holds for every byte count the function prints. *)

From Stdlib Require Import ZArith QArith Qround Lqa Ascii Permutation.
From stdpp Require Import gmap strings list sorting pretty.
From Equations Require Import Equations.

Local Open Scope Z_scope.

Abbreviation str := (list ascii).

(** String literals of the source, as character lists. *)
Definition lit (s : string) : str := String.list_ascii_of_string s.

(** * Python built-ins used by the program *)

Module Py.

(** Exceptions the modelled code can raise. *)
Inductive exn := IndexError | TypeError.

Inductive result (A : Type) :=
| Ok (a : A)
| Raise (e : exn).
Arguments Ok {A} a.
Arguments Raise {A} e.

Definition len (s : str) : Z := Z.of_nat (length s).

(** Slice bounds as [PySlice_AdjustIndices] computes them for step 1: a
    negative index counts from the end, and the result is clamped to
    [0 .. n]. *)
Definition adjust (n i : Z) : Z :=
  if i <? 0 then Z.max 0 (i + n) else Z.min i n.

(** [s[:stop]] *)
Definition slice_to (s : str) (stop : Z) : str :=
  take (Z.to_nat (adjust (len s) stop)) s.

(** [s[start:]] *)
Definition slice_from (s : str) (start : Z) : str :=
  drop (Z.to_nat (adjust (len s) start)) s.

(** Index of the first [c] in [s], counted from [i]; [-1] when absent. *)
Fixpoint find_from (c : ascii) (s : str) (i : Z) : Z :=
  match s with
  | [] => -1
  | x :: s' => if Ascii.eqb x c then i else find_from c s' (i + 1)
  end.

(** [s.find(c, start)] for a one-character [c]. *)
Definition find (s : str) (c : ascii) (start : Z) : Z :=
  let st := adjust (len s) start in
  find_from c (drop (Z.to_nat st) s) st.

(** Index of the last [c] in [s], counted from [i]; [-1] when absent. *)
Fixpoint rfind_from (c : ascii) (s : str) (i : Z) : Z :=
  match s with
  | [] => -1
  | x :: s' =>
      let r := rfind_from c s' (i + 1) in
      if r =? -1 then (if Ascii.eqb x c then i else -1) else r
  end.

(** [s.rfind(c)] for a one-character [c]. *)
Definition rfind (s : str) (c : ascii) : Z := rfind_from c s 0.

(** [s.replace(a, b)] for one-character [a] and [b]. *)
Definition replace (s : str) (a b : ascii) : str :=
  (λ x, if Ascii.eqb x a then b else x) <$> s.

Definition code (c : ascii) : Z := Z.of_N (N_of_ascii c).

Definition is_upper (c : ascii) : bool := (65 <=? code c) && (code c <=? 90).
Definition is_lower (c : ascii) : bool := (97 <=? code c) && (code c <=? 122).

(** [c.isalpha()] *)
Definition isalpha (c : ascii) : bool := is_upper c || is_lower c.

Definition lower_char (c : ascii) : ascii :=
  if is_upper c then ascii_of_N (N_of_ascii c + 32) else c.
Definition upper_char (c : ascii) : ascii :=
  if is_lower c then ascii_of_N (N_of_ascii c - 32) else c.

(** [s.lower()] *)
Definition lower (s : str) : str := lower_char <$> s.

(** [s.startswith(p)] *)
Fixpoint startswith (s p : str) : bool :=
  match p, s with
  | [], _ => true
  | _ :: _, [] => false
  | a :: p', b :: s' => Ascii.eqb a b && startswith s' p'
  end.

(** [needle in hay] on strings. *)
Fixpoint contains (hay needle : str) : bool :=
  startswith hay needle ||
  match hay with
  | [] => false
  | _ :: hay' => contains hay' needle
  end.

(** [sep.join(parts)] *)
Fixpoint join (sep : str) (parts : list str) : str :=
  match parts with
  | [] => []
  | [p] => p
  | p :: ps => p ++ sep ++ join sep ps
  end.

(** [s.ljust(w)], the effect of the format spec [<w] on a string. *)
Definition ljust (w : nat) (s : str) : str :=
  s ++ replicate (w - length s) " "%char.

(** [s.rjust(w)], the effect of the format spec [>w] on a string. *)
Definition rjust (w : nat) (s : str) : str :=
  replicate (w - length s) " "%char ++ s.

(** Values stored in the tuples the program builds. *)
Inductive value :=
| VStr (s : str)
| VInt (z : Z).

Definition value_eqb (v w : value) : bool :=
  match v, w with
  | VStr a, VStr b => bool_decide (a = b)
  | VInt a, VInt b => a =? b
  | _, _ => false
  end.

(** [a < b] on strings: the first differing character decides, by code
    point; a proper prefix is smaller. *)
Fixpoint str_lt (a b : str) : bool :=
  match a, b with
  | _, [] => false
  | [], _ :: _ => true
  | x :: a', y :: b' =>
      if Ascii.eqb x y then str_lt a' b' else code x <? code y
  end.

(** [v < w].  Python raises [TypeError] for a string against an integer;
    the program never compares such a pair (see [sort_order_shape]), and
    the embedding answers [false] there. *)
Definition value_lt (v w : value) : bool :=
  match v, w with
  | VStr a, VStr b => str_lt a b
  | VInt a, VInt b => a <? b
  | _, _ => false
  end.

(** [a < b] on lists: the first pair of unequal items decides; when there
    is none the shorter list is smaller. *)
Fixpoint list_lt (a b : list value) : bool :=
  match a, b with
  | _, [] => false
  | [], _ :: _ => true
  | x :: a', y :: b' =>
      if value_eqb x y then list_lt a' b' else value_lt x y
  end.

(** [sorted(l, key=key, reverse=reverse)].  The sort is stable and
    compares keys with [<] only.  With [reverse] CPython reverses the
    list, sorts it forward and reverses the result, which keeps elements
    with equal keys in their input order. *)
Section Sorted.
Context {A : Type} (key : A → list value).

Fixpoint insert (x : A) (l : list A) : list A :=
  match l with
  | [] => [x]
  | y :: l' =>
      if list_lt (key y) (key x) then y :: insert x l' else x :: y :: l'
  end.

Definition stable_sort (l : list A) : list A := foldr insert [] l.

Definition sorted (reversed : bool) (l : list A) : list A :=
  if reversed then reverse (stable_sort (reverse l)) else stable_sort l.
End Sorted.

(** ** Effects: the console, the files written, the methods entered *)

(** The public methods of the class, as [run] enters them. *)
Inductive method := GetResults | SortResults | FormatResults | OutputResults.

(** What a run leaves behind: the lines printed, the files written (path
    to content), and the trace of public methods entered (kept only to
    state which stages ran). *)
Record world := {
  console : list str;
  files : gmap str str;
  calls : list method
}.

(** A computation that prints, writes files and may raise. *)
Definition M (A : Type) : Type := world → result A * world.

#[global] Instance M_ret : MRet M := λ A a w, (Ok a, w).

#[global] Instance M_bind : MBind M := λ A B f m w,
  match m w with
  | (Ok a, w') => f a w'
  | (Raise e, w') => (Raise e, w')
  end.

Definition raise {A} (e : exn) : M A := λ w, (Raise e, w).

(** [print(s)] *)
Definition print (s : str) : M unit := λ w,
  (Ok (), {| console := console w ++ [s]; files := files w; calls := calls w |}).

(** [with open(path, 'w') as f: f.writelines(content)] *)
Definition write_file (path content : str) : M unit := λ w,
  (Ok (), {| console := console w; files := <[path := content]> (files w);
             calls := calls w |}).

Definition enter (m : method) : M unit := λ w,
  (Ok (), {| console := console w; files := files w; calls := calls w ++ [m] |}).

Definition lift {A} (r : result A) : M A := λ w, (r, w).

(** ** [int(s)] on ASCII text *)

(** White space [int] skips at both ends: tab, LF, VT, FF, CR, space. *)
Definition is_int_space (c : ascii) : bool :=
  ((9 <=? code c) && (code c <=? 13)) || (code c =? 32).

Definition is_digit (c : ascii) : bool := (48 <=? code c) && (code c <=? 57).

(** Decimal digits, single underscores allowed between two digits;
    [after_digit] tells whether the previous character was a digit. *)
Fixpoint digits_value (acc : Z) (after_digit : bool) (s : str) : option Z :=
  match s with
  | [] => if after_digit then Some acc else None
  | c :: s' =>
      if is_digit c then digits_value (10 * acc + (code c - 48)) true s'
      else if Ascii.eqb c "_"%char && after_digit then digits_value acc false s'
      else None
  end.

Fixpoint lstrip (s : str) : str :=
  match s with
  | c :: s' => if is_int_space c then lstrip s' else s
  | [] => []
  end.

Definition rstrip (s : str) : str := reverse (lstrip (reverse s)).

(** [int(s)]: [None] stands for [ValueError]. *)
Definition int (s : str) : option Z :=
  match rstrip (lstrip s) with
  | "+"%char :: ds => digits_value 0 false ds
  | "-"%char :: ds => Z.opp <$> digits_value 0 false ds
  | ds => digits_value 0 false ds
  end.

(** ** [str.split()], [str.title()], number formatting *)

(** White space [str.split()] cuts at: tab to CR, FS to US, space. *)
Definition is_space (c : ascii) : bool :=
  ((9 <=? code c) && (code c <=? 13)) || ((28 <=? code c) && (code c <=? 32)).

(** [s.split()]: the maximal runs of non-space characters; [word] is the
    run being read. *)
Fixpoint split_words (word s : str) : list str :=
  match s with
  | [] => match word with [] => [] | _ => [word] end
  | c :: s' =>
      if is_space c
      then match word with
           | [] => split_words [] s'
           | _ => word :: split_words [] s'
           end
      else split_words (word ++ [c]) s'
  end.

Definition split (s : str) : list str := split_words [] s.

(** [s.title()] on ASCII text, where the cased characters are the letters
    and each case mapping gives one character for one: a letter that
    follows a letter is lower-cased, any other letter is upper-cased;
    [after_cased] tells which case applies.  Beyond ASCII the full case
    mapping of Python can turn one character into several, which the
    embedding does not cover. *)
Fixpoint title_from (after_cased : bool) (s : str) : str :=
  match s with
  | [] => []
  | c :: s' =>
      if isalpha c
      then (if after_cased then lower_char c else upper_char c) :: title_from true s'
      else c :: title_from false s'
  end.

Definition title (s : str) : str := title_from false s.

(** Rounding to an integer, ties to the even neighbour, as the format
    type [f] with precision 0 does. *)
Definition round_half_even (q : Q) : Z :=
  let f := Qfloor q in
  match (q - inject_Z f ?= 1 # 2)%Q with
  | Lt => f
  | Gt => f + 1
  | Eq => if Z.even f then f else f + 1
  end.

(** ['{:3.0f}'.format(q)] *)
Definition format_3_0f (q : Q) : str := rjust 3 (lit (pretty (round_half_even q))).

End Py.

(** * The [Scopy] class *)

Module Scopy.
Import Py.

(** A result of discovery: the tuple [(filename, ext, filesize, directory)]. *)
Record file_record := {
  r_filename : str;
  r_ext : str;
  r_filesize : Z;
  r_directory : str
}.

(** [x[i]] on such a tuple, for the indices the program uses. *)
Definition item (x : file_record) (i : nat) : value :=
  match i with
  | 0%nat => VStr (r_filename x)
  | 1%nat => VStr (r_ext x)
  | 2%nat => VInt (r_filesize x)
  | _ => VStr (r_directory x)
  end.

(** The sort keys [argparse] lets through: [choices=['n', 'e', 's', 'd']]. *)
Inductive column := Col_n | Col_e | Col_s | Col_d.

(** The parsed command line ([argparse.Namespace]). *)
Record args := {
  a_directory : str;
  a_ext : list str;
  a_no_subs : bool;
  a_filters : option (list str);
  a_minsize : str;
  a_ignore : option (list str);
  a_raw : bool;
  a_sort_by : list column;
  a_descending : bool;
  a_verbose : bool;
  a_outfile : option str
}.

(** The attributes of a [Scopy] object. *)
Record scopy := {
  directory : str;
  ext : gset str;
  no_subs : bool;
  filters : option (list str);
  ignore : option (list str);
  minsize : Z;
  raw : bool;
  sort_by : list column;
  descending : bool;
  verbose : bool;
  outfile : option str
}.

(** Truth value of an optional list: [None] and [[]] are false. *)
Definition truthy {A} (o : option (list A)) : bool :=
  match o with
  | Some (_ :: _) => true
  | _ => false
  end.

(** ** [sort_results] *)

Definition translate (c : column) : nat :=
  match c with
  | Col_n => 0
  | Col_e => 1
  | Col_s => 2
  | Col_d => 3
  end.

Definition sort_order (self : scopy) (x : file_record) : list value :=
  (λ column, item x (translate column)) <$> sort_by self.

Definition sort_results (self : scopy) (results : list file_record)
  : list file_record :=
  sorted (sort_order self) (descending self) results.

(** [_split]: cut the file name at the index [rfind] returns. *)
Definition _split (file : str) : str * str :=
  let ext_index := rfind file "."%char in
  (slice_to file ext_index, slice_from file ext_index).

(** ** Deriving the attributes: [__init__] and its helpers *)

Definition _set_extensions (extensions : list str) : gset str :=
  list_to_set ((λ ext, if startswith ext (lit ".") then ext else lit "." ++ ext)
                 <$> extensions).

Definition parse_size (size : str) (multi : Z) : M Z :=
  match int size with
  | Some n => mret (multi * n)
  | None =>
      print (lit "WARNING: Not a valid format for file size!");;
      print (lit "Using the default value: 0" ++ ["010"%char]);;
      mret 0
  end.

(** The suffix table of [_set_minsize], read with [translate.get(c, 1)]. *)
Definition translate_suffix (c : ascii) : Z :=
  if Ascii.eqb c "k"%char then 1024
  else if Ascii.eqb c "m"%char then 1024 ^ 2
  else if Ascii.eqb c "g"%char then 1024 ^ 3
  else 1.

(** [minsize[-1]] raises [IndexError] on the empty string. *)
Definition _set_minsize (minsize : str) : M Z :=
  match last minsize with
  | None => raise IndexError
  | Some c =>
      if isalpha c then
        let multiplier := translate_suffix (lower_char c) in
        parse_size (slice_to minsize (-1)) multiplier
      else parse_size minsize 1
  end.

Definition _set_outfile (outfile : option str) : option str :=
  match outfile with
  | Some ((_ :: _) as name) =>
      if find name "."%char 0 =? -1 then Some (name ++ lit ".txt") else outfile
  | _ => outfile
  end.

Definition init (a : args) : M scopy :=
  size ← _set_minsize (a_minsize a);
  mret {| directory := replace (a_directory a) "\"%char "/"%char;
          ext := _set_extensions (a_ext a);
          no_subs := a_no_subs a;
          filters := a_filters a;
          ignore := a_ignore a;
          minsize := size;
          raw := a_raw a;
          sort_by := a_sort_by a;
          descending := a_descending a;
          verbose := a_verbose a;
          outfile := _set_outfile (a_outfile a) |}.

(** ** Discovery *)

(** A directory entry as [os.listdir] names it and [os.path.isfile],
    [os.path.getsize] and [os.walk] see it: a regular file with its size in
    bytes, or a subdirectory with its own listing.  Names within one
    listing are distinct on a real file system. *)
#[warnings="-register-all"]
Inductive node :=
| File (name : str) (size : Z)
| Dir (name : str) (listing : list node).

(** [os.path.join(a, b)] *)
Definition path_join (a b : str) : str :=
  if startswith b (lit "/") then b
  else if bool_decide (a = []) || bool_decide (last a = Some "/"%char) then a ++ b
  else a ++ lit "/" ++ b.

Definition _satisfies_filters (self : scopy) (filename ext : str) (filesize : Z)
  : bool :=
  let is_valid_file :=
    match filters self with
    | Some ((_ :: _) as fs) =>
        existsb (λ filt, contains (lower filename) (lower filt)) fs
    | _ => true
    end in
  let is_valid_ext := bool_decide (ext ∈ Scopy.ext self) in
  let is_valid_size := minsize self <=? filesize in
  is_valid_file && is_valid_ext && is_valid_size.

(** The loop body of [_search_directory] for one name of the listing. *)
Definition search_entry (self : scopy) (directory : str)
  (results : list file_record) (entry : node) : list file_record :=
  match entry with
  | File file filesize =>
      let '(filename, ext) := _split file in
      if _satisfies_filters self filename ext filesize
      then results ++ [{| r_filename := filename; r_ext := ext;
                          r_filesize := filesize; r_directory := directory |}]
      else results
  | Dir _ _ => results
  end.

Definition _search_directory (self : scopy) (directory : str)
  (listing : list node) : list file_record :=
  foldl (search_entry self directory) [] listing.

(** The test of [_ignore_directories] on one directory name. *)
Definition ignored (self : scopy) (d : str) : bool :=
  existsb (λ word, contains (lower d) (lower word)) (default [] (ignore self)).

(** [dirs.remove(d)]: drop the first item equal to [d]. *)
Fixpoint remove_first (d : str) (dirs : list str) : list str :=
  match dirs with
  | [] => []
  | x :: rest => if bool_decide (x = d) then rest else x :: remove_first d rest
  end.

(** [for d in dirs: if ...: dirs.remove(d)].  The [for] statement reads
    the list by position, one further at each turn, while the body
    shortens that same list; [i] is the position and [fuel] bounds the
    turns ([i] grows and the list never does, so its length is enough). *)
Fixpoint ignore_loop (self : scopy) (fuel i : nat) (dirs : list str) : list str :=
  match fuel with
  | O => dirs
  | S fuel' =>
      match dirs !! i with
      | None => dirs
      | Some d =>
          if ignored self d
          then ignore_loop self fuel' (S i) (remove_first d dirs)
          else ignore_loop self fuel' (S i) dirs
      end
  end.

Definition _ignore_directories (self : scopy) (dirs : list str) : list str :=
  ignore_loop self (length dirs) 0 dirs.

(** The subdirectory names [os.walk] hands out for a listing. *)
Definition dir_names (listing : list node) : list str :=
  omap (λ entry, match entry with Dir name _ => Some name | File _ _ => None end)
    listing.

(** The loop of [_search_all] over [os.walk], from the directory [top]
    whose path is [path]: the walk yields [path] with the names of its
    subdirectories, the loop body prunes that list in place and searches
    [path], and the walk then descends into the names left in the list. *)
Fixpoint search_walk (self : scopy) (path : str) (top : node) : list file_record :=
  match top with
  | File _ _ => []
  | Dir _ listing =>
      let dirs := dir_names listing in
      let dirs :=
        match ignore self with
        | Some (_ :: _) => _ignore_directories self dirs
        | _ => dirs
        end in
      _search_directory self path listing ++
      flat_map (λ sub,
                  match sub with
                  | Dir name _ =>
                      if bool_decide (name ∈ dirs)
                      then search_walk self (path_join path name) sub
                      else []
                  | File _ _ => []
                  end) listing
  end.

Definition _search_all (self : scopy) (listing : list node) : list file_record :=
  search_walk self (directory self) (Dir [] listing).

(** [get_results]; [disk] is what [self.directory] names on disk: the
    listing of that directory, or [None] when it is not a directory. *)
Definition get_results (self : scopy) (disk : option (list node))
  : M (option (list file_record)) :=
  match disk with
  | Some listing =>
      mret (Some (if no_subs self
                  then _search_directory self (directory self) listing
                  else _search_all self listing))
  | None =>
      print (directory self ++ lit " is not a valid directory!");;
      mret None
  end.

(** ** Formatting *)

Definition MAX_WIDTH : Z := 50.

Definition is_filler (c : ascii) : bool :=
  bool_decide (c ∈ lit ".$%_-").

(** [' '.join(re.sub(r'[.$%_-]', ' ', filename).split()).title()] *)
Definition _replace_symbols (filename : str) : str :=
  title (join (lit " ")
           (split ((λ c, if is_filler c then " "%char else c) <$> filename))).

(** One turn of the [while] loop of [_trimmed]:
    [relative_path[relative_path.find('/', 1):]]. *)
Definition drop_segment (relative_path : str) : str :=
  slice_from relative_path (find relative_path "/"%char 1).

(** [while len(relative_path) > MAX_WIDTH-3: ...] *)
Equations? shorten (relative_path : str) : str
  by wf (length relative_path) lt :=
shorten relative_path with decide (MAX_WIDTH - 3 < len relative_path) => {
  | left _ := shorten (drop_segment relative_path);
  | right _ := relative_path }.
Proof.
  unfold MAX_WIDTH, len in *.
  assert (∀ c s i, find_from c s i = -1 ∨ i <= find_from c s i) as Hfind.
  { intros c s. induction s as [|x s IH]; intros i; simpl; [by left|].
    destruct (Ascii.eqb x c); [right; lia|].
    destruct (IH (i + 1)); [by left|right; lia]. }
  unfold drop_segment, slice_from, find, adjust, len.
  rewrite length_drop.
  destruct (Hfind "/"%char
              (drop (Z.to_nat (if 1 <? 0 then Z.max 0 (1 + Z.of_nat (length relative_path))
                               else Z.min 1 (Z.of_nat (length relative_path))))
                    relative_path)
              (if 1 <? 0 then Z.max 0 (1 + Z.of_nat (length relative_path))
               else Z.min 1 (Z.of_nat (length relative_path)))) as [->|H].
  - change (-1 <? 0) with true. cbv iota. lia.
  - change (1 <? 0) with false in *. cbv iota in *.
    case_match; lia.
Qed.

Definition _trimmed (self : scopy) (filename path : str) : str * str :=
  let HOME_LENGTH := len (directory self) in
  let relative_path := replace (slice_from path HOME_LENGTH) "\"%char "/"%char in
  let filename := if raw self then filename else _replace_symbols filename in
  let filename :=
    if MAX_WIDTH <? len filename
    then slice_to filename (MAX_WIDTH - 3) ++ lit "..."
    else filename in
  let relative_path :=
    if MAX_WIDTH <? len relative_path
    then lit "..." ++ shorten relative_path
    else relative_path in
  (filename, relative_path).

(** The [for] loop of [_convert_bytes]; after the first division the size
    is a float, here the exact quotient. *)
Fixpoint convert_loop (units : list str) (size : Q) : option str :=
  match units with
  | [] => None
  | unit :: units' =>
      match (size ?= 1024)%Q with
      | Lt => Some (format_3_0f size ++ lit " " ++ rjust 2 unit)
      | _ => convert_loop units' (size / 1024)%Q
      end
  end.

(** [_convert_bytes]: falling off the loop returns [None]. *)
Definition _convert_bytes (size : Z) : option str :=
  convert_loop [lit "B"; lit "KB"; lit "MB"; lit "GB"; lit "TB"] (inject_Z size).

(** [COLUMNS.format(a0, a1, a2, a3, WIDTH=MAX_WIDTH)] on strings, with
    [COLUMNS = '{0:<{WIDTH}} {2:<8} {3:<8} {1}']. *)
Definition COLUMNS (a0 a1 a2 a3 : str) : str :=
  ljust (Z.to_nat MAX_WIDTH) a0 ++ lit " " ++ ljust 8 a2 ++ lit " " ++
  ljust 8 a3 ++ lit " " ++ a1.

(** One row of the table.  The size column is formatted with [<8], a
    spec [None] does not support: [format] raises [TypeError] there. *)
Definition format_row (self : scopy) (r : file_record) : result str :=
  let '(filename, relative_path) := _trimmed self (r_filename r) (r_directory r) in
  match _convert_bytes (r_filesize r) with
  | Some size => Ok (COLUMNS filename relative_path (r_ext r) size)
  | None => Raise TypeError
  end.

Fixpoint format_rows (self : scopy) (results : list file_record)
  : result (list str) :=
  match results with
  | [] => Ok []
  | r :: results' =>
      match format_row self r with
      | Ok row =>
          match format_rows self results' with
          | Ok rows => Ok (row :: rows)
          | Raise e => Raise e
          end
      | Raise e => Raise e
      end
  end.

(** [_get_header]; [abspath] is [os.path.abspath(self.directory)], and
    the extensions come in the order the set enumerates them. *)
Definition _get_header (self : scopy) (abspath : str)
  (results : list file_record) : str :=
  let header :=
    [([], [])] ++
    [(lit "Scanned directory:", replace abspath "\"%char "/"%char)] ++
    match ignore self with
    | Some ((_ :: _) as words) =>
        [(lit "Ignoring subdirectories containing:", join (lit ", ") words)]
    | _ => []
    end ++
    match filters self with
    | Some ((_ :: _) as words) =>
        [(lit "Looking for files containing:", join (lit ", ") words)]
    | _ => []
    end ++
    [(lit "With extensions:", join (lit ", ") (elements (ext self)))] ++
    [(lit "Found:", lit (pretty (length results)) ++ lit " files")] in
  join ["010"%char] ((λ line, ljust 36 line.1 ++ line.2) <$> header).

Definition format_results (self : scopy) (abspath : str)
  (results : list file_record) : result str :=
  let column_names :=
    COLUMNS (lit "Filename:") (lit "Relative path:") (lit "Ext:") (lit "Size:") in
  match format_rows self results with
  | Raise e => Raise e
  | Ok rows =>
      let results_string := join ["010"%char] rows in
      if verbose self
      then Ok (join (replicate 3 "010"%char)
                 [_get_header self abspath results;
                  join ["010"%char] [column_names; results_string]])
      else Ok (join ["010"%char] [[]; column_names; results_string])
  end.

(** ** Output and the whole run *)

Definition _write_to_file (self : scopy) (name contens : str) : M unit :=
  write_file name
    (contens ++ replicate 3 "010"%char ++
     lit "Created with Scopy. https://github.com/narimiran/scopy " ++ ["010"%char]);;
  print (lit "Results saved in " ++ name).

Definition output_results (self : scopy) (contents : str) : M unit :=
  match outfile self with
  | Some ((_ :: _) as name) => _write_to_file self name contents
  | _ => print contents
  end.

(** [run]; each public method is recorded as it is entered. *)
Definition run (self : scopy) (disk : option (list node)) (abspath : str)
  : M unit :=
  enter GetResults;;
  results ← get_results self disk;
  match results with
  | Some ((_ :: _) as results) =>
      enter SortResults;;
      let sorted_results := sort_results self results in
      enter FormatResults;;
      formatted_content ← lift (format_results self abspath sorted_results);
      enter OutputResults;;
      output_results self formatted_content
  | _ => mret ()
  end.

(** [main], after [arg_parser] has produced [a]: build the object, run it. *)
Definition main (a : args) (disk : option (list node)) (abspath : str) : M unit :=
  sc ← init a;
  run sc disk abspath.

End Scopy.

(** * The orderings and predicates the specification names *)

Module Spec.
Import Py Scopy.

(** Case-sensitive ordering of strings: character codes, left to right. *)
Fixpoint str_compare (a b : str) : comparison :=
  match a, b with
  | [], [] => Eq
  | [], _ :: _ => Lt
  | _ :: _, [] => Gt
  | x :: a', y :: b' =>
      match code x ?= code y with
      | Eq => str_compare a' b'
      | o => o
      end
  end.

(** The natural ordering of one sort key: strings for name, extension
    and directory, numbers for size. *)
Definition col_compare (c : column) (x y : file_record) : comparison :=
  match c with
  | Col_n => str_compare (r_filename x) (r_filename y)
  | Col_e => str_compare (r_ext x) (r_ext y)
  | Col_s => r_filesize x ?= r_filesize y
  | Col_d => str_compare (r_directory x) (r_directory y)
  end.

(** The composite ordering: the first key is primary, each later key
    breaks the ties the earlier ones leave. *)
Fixpoint lex_compare (cols : list column) (x y : file_record) : comparison :=
  match cols with
  | [] => Eq
  | c :: cs =>
      match col_compare c x y with
      | Eq => lex_compare cs x y
      | o => o
      end
  end.

(** [x] comes no later than [y] in the composite ordering, read
    ascending or, with the flag set, descending as a whole. *)
Definition in_order (cols : list column) (desc : bool) (x y : file_record) : Prop :=
  lex_compare cols x y ≠ (if desc then Lt else Gt).

(** [x] and [y] agree on every key. *)
Definition tied (cols : list column) (x y : file_record) : Prop :=
  lex_compare cols x y = Eq.

#[global] Instance tied_dec cols x y : Decision (tied cols x y).
Proof. unfold tied. apply _. Defined.

(** What the specification asks of a discovered record: its extension is
    in the accepted set, its size reaches the threshold, and, when name
    filters are given, some filter occurs in the base name once both are
    lower-cased. *)
Definition passes (self : scopy) (r : file_record) : Prop :=
  r_ext r ∈ ext self ∧
  minsize self <= r_filesize r ∧
  ∀ fs, filters self = Some fs → fs ≠ [] →
    ∃ filt pre post, filt ∈ fs ∧ lower (r_filename r) = pre ++ lower filt ++ post.

(** The record discovery builds for the file [file] of [size] bytes found
    in [directory]. *)
Definition found (directory file : str) (size : Z) : file_record :=
  {| r_filename := (_split file).1; r_ext := (_split file).2;
     r_filesize := size; r_directory := directory |}.

(** The pruning loop of [_ignore_directories] written by cases on the
    list: a name that matches is dropped, and the name right after it is
    let through without being tested. *)
Fixpoint prune_skipping (matches : str → bool) (dirs : list str) : list str :=
  match dirs with
  | [] => []
  | d :: rest =>
      if matches d
      then match rest with
           | [] => []
           | d' :: rest' => d' :: prune_skipping matches rest'
           end
      else d :: prune_skipping matches rest
  end.

(** The same loop entered right after a removal: the first name goes
    through untested. *)
Definition after_removal (matches : str → bool) (dirs : list str) : list str :=
  match dirs with
  | [] => []
  | d :: rest => d :: prune_skipping matches rest
  end.

(** [located ok path listing file size dir]: the regular file [file] of
    [size] bytes lies in the directory [dir], reached from the directory
    [path] with listing [listing] through subdirectories whose names all
    satisfy [ok]. *)
Inductive located (ok : str → Prop) : str → list node → str → Z → str → Prop :=
| located_here path listing file size :
    File file size ∈ listing → located ok path listing file size path
| located_below path listing name sub file size dir :
    Dir name sub ∈ listing → ok name →
    located ok (path_join path name) sub file size dir →
    located ok path listing file size dir.

(** No directory name of the tree starts with a slash (on disk a name
    holds no slash at all). *)
Fixpoint plain (top : node) : bool :=
  match top with
  | File _ _ => true
  | Dir name listing => negb (startswith name (lit "/")) && forallb plain listing
  end.


Definition relative_path (self : scopy) (r : file_record) : str :=
  replace (slice_from (r_directory r) (len (directory self))) "\"%char "/"%char.





(** The part of a minimum-size string that is read as a number, and the
    multiplier its last character stands for: an alphabetic last character
    is the unit and is left out of the number. *)
Definition numeric_part (s : str) : str :=
  match last s with
  | Some c => if isalpha c then slice_to s (-1) else s
  | None => s
  end.

Definition multiplier (s : str) : Z :=
  match last s with
  | Some c => if isalpha c then translate_suffix (lower_char c) else 1
  | None => 1
  end.

End Spec.

(** * Sample inputs *)

Module Sample.
Import Py Scopy.

Definition w0 : world := {| console := []; files := ∅; calls := [] |}.

(** [scopy -d lib -e pdf -i draft] *)
Definition books : scopy :=
  {| directory := lit "lib"; ext := {[ lit ".pdf" ]}; no_subs := false;
     filters := None; ignore := Some [lit "draft"]; minsize := 0;
     raw := false; sort_by := [Col_n]; descending := false;
     verbose := false; outfile := None |}.

(** Two subdirectories whose names both contain [draft], listed one after
    the other, each holding one PDF file. *)
Definition two_drafts : list node :=
  [Dir (lit "draft1") [File (lit "a.pdf") 10];
   Dir (lit "draft2") [File (lit "b.pdf") 20]].

(** [scopy -d lib -e pdf -f book -m 1k] *)
Definition filtered : scopy :=
  {| directory := lit "lib"; ext := {[ lit ".pdf" ]}; no_subs := false;
     filters := Some [lit "Book"]; ignore := None; minsize := 1024;
     raw := false; sort_by := [Col_n]; descending := false;
     verbose := false; outfile := None |}.

Definition shelf : list node :=
  [File (lit "My-Book_01.pdf") 2048;
   File (lit "notes.txt") 500;
   Dir (lit "old") [File (lit "handbook.pdf") 4096; File (lit "tiny book.pdf") 12]].

(** A file of exactly 1024^5 bytes. *)
Definition huge : file_record :=
  {| r_filename := lit "dump"; r_ext := lit ".pdf";
     r_filesize := 1024 ^ 5; r_directory := lit "lib" |}.

(** A base name of 60 characters and a directory 58 characters below the
    root [lib]. *)
Definition long_name : str := replicate 60 "x"%char.

Definition long_path : str :=
  lit "lib/" ++ replicate 30 "a"%char ++ lit "/" ++ replicate 20 "b"%char ++
  lit "/cc".

Definition rec (name e : string) (size : Z) (dir : string) : file_record :=
  {| r_filename := lit name; r_ext := lit e; r_filesize := size;
     r_directory := lit dir |}.

(** [scopy -s e n -z] *)
Definition by_ext_name_desc : scopy :=
  {| directory := lit "lib"; ext := {[ lit ".pdf"; lit ".epub" ]};
     no_subs := false; filters := None; ignore := None; minsize := 0;
     raw := false; sort_by := [Col_e; Col_n]; descending := true;
     verbose := false; outfile := None |}.

(** [scopy -s e -z] *)
Definition by_ext_desc : scopy :=
  {| directory := lit "lib"; ext := {[ lit ".pdf"; lit ".epub" ]};
     no_subs := false; filters := None; ignore := None; minsize := 0;
     raw := false; sort_by := [Col_e]; descending := true;
     verbose := false; outfile := None |}.

(** The command line [scopy -d lib -e pdf -m 64k]. *)
Definition cli : args :=
  {| a_directory := lit "lib"; a_ext := [lit "pdf"]; a_no_subs := false;
     a_filters := None; a_minsize := lit "64k"; a_ignore := None;
     a_raw := false; a_sort_by := [Col_n]; a_descending := false;
     a_verbose := false; a_outfile := None |}.

(** [scopy -d lib -e pdf -o list] *)
Definition to_file : scopy :=
  {| directory := lit "lib"; ext := {[ lit ".pdf" ]}; no_subs := false;
     filters := None; ignore := None; minsize := 0;
     raw := false; sort_by := [Col_n]; descending := false;
     verbose := false; outfile := Some (lit "list.txt") |}.

Definition my_book : file_record :=
  {| r_filename := lit "My-Book_01"; r_ext := lit ".pdf";
     r_filesize := 2048; r_directory := lit "lib" |}.

Definition handbook : file_record :=
  {| r_filename := lit "handbook"; r_ext := lit ".pdf";
     r_filesize := 4096; r_directory := lit "lib/old" |}.



(** The command line [scopy -d lib -e pdf -m N] for a size [N]. *)
Definition with_minsize (n : string) : args :=
  {| a_directory := lit "lib"; a_ext := [lit "pdf"]; a_no_subs := false;
     a_filters := None; a_minsize := lit n; a_ignore := None;
     a_raw := false; a_sort_by := [Col_n]; a_descending := false;
     a_verbose := false; a_outfile := None |}.

End Sample.

(** * Properties *)

Section SplitFacts.
Import Py Scopy.

Lemma len_cons (x : ascii) (s : str) : len (x :: s) = 1 + len s.
Proof. unfold len. simpl length. lia. Qed.

Lemma len_nonneg (s : str) : 0 <= len s.
Proof. unfold len. lia. Qed.

Lemma rfind_from_absent c s i : c ∉ s → rfind_from c s i = -1.
Proof.
  revert i. induction s as [|x s IH]; intros i Hc; simpl; [done|].
  rewrite IH by set_solver. simpl.
  destruct (Ascii.eqb_spec x c); [set_solver|done].
Qed.

Lemma rfind_from_last c pre post i :
  0 <= i → c ∉ post → rfind_from c (pre ++ c :: post) i = i + len pre.
Proof.
  revert i. induction pre as [|x pre IH]; intros i Hi Hc; cbn [app rfind_from].
  - rewrite rfind_from_absent by done.
    rewrite Z.eqb_refl, Ascii.eqb_refl. unfold len. simpl. lia.
  - rewrite IH by (done || lia). rewrite len_cons. pose proof (len_nonneg pre).
    destruct (Z.eqb_spec (i + 1 + len pre) (-1)) as [E|_]; lia.
Qed.

Lemma split_at_dot pre post :
  "."%char ∉ post → _split (pre ++ "."%char :: post) = (pre, "."%char :: post).
Proof.
  intros Hc. unfold _split, rfind. rewrite rfind_from_last by done.
  unfold slice_to, slice_from, adjust, len.
  rewrite length_app. simpl length.
  destruct (Z.ltb_spec (0 + Z.of_nat (length pre)) 0); [lia|].
  rewrite Z.min_l by lia.
  replace (Z.to_nat (0 + Z.of_nat (length pre))) with (length pre) by lia.
  by rewrite take_app_length, drop_app_length.
Qed.

Lemma split_no_dot pre c :
  "."%char ∉ pre ++ [c] → _split (pre ++ [c]) = (pre, [c]).
Proof.
  intros Hc. unfold _split, rfind. rewrite rfind_from_absent by done.
  unfold slice_to, slice_from, adjust, len.
  rewrite length_app. simpl length. change (-1 <? 0) with true. cbv iota.
  replace (Z.to_nat (Z.max 0 (-1 + Z.of_nat (length pre + 1)))) with (length pre) by lia.
  by rewrite take_app_length, drop_app_length.
Qed.

End SplitFacts.

(** C3 (as stated, refuted): the file name [README] has no dot, yet the
    extension [_split] returns is its last character [E], not the whole
    name. *)
Lemma split_dotless_ext_not_whole_name :
  ("."%char ∉ lit "README") ∧
  Scopy._split (lit "README") = (lit "READM", lit "E") ∧
  (Scopy._split (lit "README")).2 ≠ lit "README".
Proof.
  split; [|split].
  - vm_compute. intros H. repeat (apply elem_of_cons in H as [H|H]; [discriminate H|]).
    by apply elem_of_nil in H.
  - reflexivity.
  - discriminate.
Qed.

(** C3 (amended): [_split] cuts a file name at its last dot, the base being
    what precedes that dot and the extension running from the dot to the
    end; a file name without any dot is cut before its last character (the
    index -1 that [rfind] returns), so the extension is that one character
    and the base is the rest. *)
Theorem split_last_dot_or_last_char :
  (∀ pre post : str, "."%char ∉ post →
     Scopy._split (pre ++ "."%char :: post) = (pre, "."%char :: post)) ∧
  (∀ (pre : str) (c : ascii), "."%char ∉ pre ++ [c] →
     Scopy._split (pre ++ [c]) = (pre, [c])) ∧
  Scopy._split [] = ([], []).
Proof.
  split; [|split].
  - apply split_at_dot.
  - apply split_no_dot.
  - reflexivity.
Qed.

Lemma split_last_dot_or_last_char_witness :
  Scopy._split (lit "a.tar" ++ "."%char :: lit "gz") = (lit "a.tar", "."%char :: lit "gz") ∧
  Scopy._split (lit "READM" ++ ["E"%char]) = (lit "READM", ["E"%char]).
Proof.
  destruct split_last_dot_or_last_char as (H1 & H2 & _). split.
  - apply H1. vm_compute. intros H.
    repeat (apply elem_of_cons in H as [H|H]; [discriminate H|]).
    by apply elem_of_nil in H.
  - apply H2. vm_compute. intros H.
    repeat (apply elem_of_cons in H as [H|H]; [discriminate H|]).
    by apply elem_of_nil in H.
Defined.

(** ** Sorting *)

Section SortedFacts.
Import Py.
Context {A : Type} (key : A → list value) (cmp : A → A → comparison).
Hypothesis lt_cmp : ∀ x y, list_lt (key x) (key y) = true ↔ cmp x y = Lt.
Hypothesis cmp_antisym : ∀ x y, cmp y x = CompOpp (cmp x y).
Hypothesis cmp_lt_trans : ∀ x y z, cmp x y = Lt → cmp y z = Lt → cmp x z = Lt.
Hypothesis cmp_eq_l : ∀ x y z, cmp x y = Eq → cmp x z = cmp y z.

Let le (x y : A) : Prop := cmp x y ≠ Gt.

Lemma cmp_eq_r x y z : cmp y z = Eq → cmp x y = cmp x z.
Proof.
  intros E. rewrite (cmp_antisym y x), (cmp_antisym z x). f_equal.
  apply cmp_eq_l. done.
Qed.

Lemma le_trans x y z : le x y → le y z → le x z.
Proof.
  unfold le. intros Hxy Hyz.
  destruct (cmp x y) eqn:Exy; [| |done].
  - by rewrite (cmp_eq_l _ _ _ Exy).
  - destruct (cmp y z) eqn:Eyz; [| |done].
    + by rewrite <-(cmp_eq_r _ _ _ Eyz), Exy.
    + by rewrite (cmp_lt_trans _ _ _ Exy Eyz).
Qed.

Lemma not_lt_le x y : list_lt (key y) (key x) ≠ true → le x y.
Proof.
  unfold le. intros H E. apply H, lt_cmp.
  by rewrite cmp_antisym, E.
Qed.

Lemma lt_le x y : list_lt (key y) (key x) = true → le y x.
Proof. unfold le. intros H%lt_cmp. by rewrite H. Qed.

Lemma insert_Permutation x l : insert key x l ≡ₚ x :: l.
Proof.
  induction l as [|y l IH]; simpl; [done|].
  destruct (list_lt (key y) (key x)); [|done].
  by rewrite IH, Permutation_swap.
Qed.

Lemma stable_sort_Permutation l : stable_sort key l ≡ₚ l.
Proof.
  induction l as [|x l IH]; simpl; [done|].
  by rewrite insert_Permutation, IH.
Qed.

Lemma insert_sorted x l :
  StronglySorted le l → StronglySorted le (insert key x l).
Proof.
  induction 1 as [|y l Hs IH Hy]; simpl.
  - repeat constructor.
  - destruct (list_lt (key y) (key x)) eqn:E.
    + constructor; [done|].
      rewrite insert_Permutation. constructor; [by apply lt_le|done].
    + assert (le x y) by (apply not_lt_le; congruence).
      constructor; [by constructor|].
      constructor; [done|].
      eapply Forall_impl; [exact Hy|]. intros z Hz. by eapply le_trans.
Qed.

Lemma stable_sort_sorted l : StronglySorted le (stable_sort key l).
Proof.
  induction l as [|x l IH]; simpl; [constructor|]. by apply insert_sorted.
Qed.

Lemma stable_sort_fixed l : StronglySorted le l → stable_sort key l = l.
Proof.
  induction 1 as [|x l Hs IH Hx]; simpl; [done|].
  rewrite IH. destruct l as [|y l]; simpl; [done|].
  apply Forall_cons in Hx as [Hxy _].
  destruct (list_lt (key y) (key x)) eqn:E; [|done].
  apply lt_cmp in E. unfold le in Hxy. rewrite cmp_antisym, E in Hxy. done.
Qed.

Lemma filter_insert a x l :
  filter (λ y, cmp a y = Eq) (insert key x l) =
  filter (λ y, cmp a y = Eq) (x :: l).
Proof.
  induction l as [|y l IH]; simpl; [done|].
  destruct (list_lt (key y) (key x)) eqn:E; [|done].
  rewrite filter_cons, IH, !filter_cons.
  destruct (decide (cmp a x = Eq)) as [Hx|Hx]; [|done].
  destruct (decide (cmp a y = Eq)) as [Hy|Hy]; [|done].
  apply lt_cmp in E. rewrite <-(cmp_eq_l _ _ _ Hy), Hx in E. done.
Qed.

Lemma filter_stable_sort a l :
  filter (λ y, cmp a y = Eq) (stable_sort key l) =
  filter (λ y, cmp a y = Eq) l.
Proof.
  induction l as [|x l IH]; simpl; [done|].
  by rewrite filter_insert, !filter_cons, IH.
Qed.

Lemma StronglySorted_reverse (R : A → A → Prop) l :
  StronglySorted R l → StronglySorted (flip R) (reverse l).
Proof.
  induction 1 as [|x l Hs IH Hx]; [constructor|].
  rewrite reverse_cons. apply StronglySorted_app. split_and!.
  - intros y z Hy ->%list_elem_of_singleton.
    rewrite elem_of_reverse in Hy. unfold flip.
    by apply (proj1 (list.Forall_forall _ _) Hx).
  - done.
  - repeat constructor.
Qed.

Lemma StronglySorted_weaken (R S : A → A → Prop) l :
  (∀ x y, R x y → S x y) → StronglySorted R l → StronglySorted S l.
Proof.
  intros HRS. induction 1 as [|x l Hs IH Hx]; constructor; [done|].
  eapply Forall_impl; [exact Hx|]. intros; by apply HRS.
Qed.

Lemma sorted_Permutation (rv : bool) (l : list A) : sorted key rv l ≡ₚ l.
Proof.
  destruct rv; simpl; [|apply stable_sort_Permutation].
  by rewrite reverse_Permutation, stable_sort_Permutation, reverse_Permutation.
Qed.

Lemma sorted_ordered (rv : bool) (l : list A) :
  StronglySorted (λ x y, cmp x y ≠ if rv then Lt else Gt) (sorted key rv l).
Proof.
  destruct rv; simpl; [|apply stable_sort_sorted].
  eapply StronglySorted_weaken;
    [|apply StronglySorted_reverse, stable_sort_sorted].
  intros x y. unfold flip, le. rewrite (cmp_antisym x y).
  by destruct (cmp x y).
Qed.

Lemma sorted_stable (a : A) (rv : bool) (l : list A) :
  filter (λ y, cmp a y = Eq) (sorted key rv l) =
  filter (λ y, cmp a y = Eq) l.
Proof.
  destruct rv; simpl; [|apply filter_stable_sort].
  by rewrite filter_reverse, filter_stable_sort, filter_reverse,
    reverse_involutive.
Qed.

Lemma sorted_idempotent (rv : bool) (l : list A) : sorted key rv (sorted key rv l) = sorted key rv l.
Proof.
  destruct rv; simpl.
  - rewrite reverse_involutive. f_equal.
    apply stable_sort_fixed, stable_sort_sorted.
  - apply stable_sort_fixed, stable_sort_sorted.
Qed.

End SortedFacts.

Section OrderFacts.
Import Py Scopy Spec.

Lemma code_inj x y : code x = code y → x = y.
Proof.
  unfold code. intros H%(inj Z.of_N).
  by rewrite <-(ascii_N_embedding x), <-(ascii_N_embedding y), H.
Qed.

Lemma ascii_eqb_code x y : Ascii.eqb x y = (code x =? code y).
Proof.
  destruct (Ascii.eqb_spec x y) as [->|Hne].
  - by rewrite Z.eqb_refl.
  - symmetry. apply Z.eqb_neq. intros H. by apply Hne, code_inj.
Qed.

Lemma str_compare_eq a b : str_compare a b = Eq ↔ a = b.
Proof.
  revert b. induction a as [|x a IH]; intros [|y b]; simpl; try done.
  destruct (Z.compare_spec (code x) (code y)) as [E|E|E].
  - apply code_inj in E as ->. rewrite IH. split; congruence.
  - split; [done|]. intros [= -> _]. lia.
  - split; [done|]. intros [= -> _]. lia.
Qed.

Lemma str_compare_antisym a b : str_compare b a = CompOpp (str_compare a b).
Proof.
  revert b. induction a as [|x a IH]; intros [|y b]; simpl; try done.
  rewrite (Z.compare_antisym (code x) (code y)).
  destruct (code x ?= code y); simpl; auto.
Qed.

Lemma str_compare_lt_trans a b c :
  str_compare a b = Lt → str_compare b c = Lt → str_compare a c = Lt.
Proof.
  revert b c. induction a as [|x a IH]; intros [|y b] [|z c]; simpl; try done.
  destruct (Z.compare_spec (code x) (code y)) as [E1|E1|E1]; [| |done];
    destruct (Z.compare_spec (code y) (code z)) as [E2|E2|E2]; try done;
    intros H1 H2.
  - rewrite E1, E2, Z.compare_refl. eauto.
  - rewrite E1. by apply Z.compare_lt_iff in E2 as ->.
  - rewrite <-E2. by apply Z.compare_lt_iff in E1 as ->.
  - assert (code x < code z) as ->%Z.compare_lt_iff by lia. done.
Qed.

Lemma str_lt_compare a b : str_lt a b = true ↔ str_compare a b = Lt.
Proof.
  revert b. induction a as [|x a IH]; intros [|y b]; simpl; try done.
  rewrite ascii_eqb_code.
  destruct (Z.compare_spec (code x) (code y)) as [E|E|E].
  - rewrite E, Z.eqb_refl. apply IH.
  - rewrite (proj2 (Z.eqb_neq _ _)) by lia. rewrite Z.ltb_lt. done.
  - rewrite (proj2 (Z.eqb_neq _ _)) by lia. rewrite Z.ltb_lt. split; [lia|done].
Qed.

Lemma col_compare_antisym c x y : col_compare c y x = CompOpp (col_compare c x y).
Proof.
  destruct c; simpl; auto using str_compare_antisym, Z.compare_antisym.
Qed.

Lemma col_compare_eq c x y :
  col_compare c x y = Eq ↔ item x (translate c) = item y (translate c).
Proof.
  destruct c; simpl; rewrite ?str_compare_eq, ?Z.compare_eq_iff;
    split; congruence.
Qed.

Lemma col_compare_eq_l c x y z :
  col_compare c x y = Eq → col_compare c x z = col_compare c y z.
Proof.
  destruct c; simpl; rewrite ?str_compare_eq, ?Z.compare_eq_iff; by intros ->.
Qed.

Lemma col_compare_eq_r c x y z :
  col_compare c y z = Eq → col_compare c x y = col_compare c x z.
Proof.
  destruct c; simpl; rewrite ?str_compare_eq, ?Z.compare_eq_iff; by intros ->.
Qed.

Lemma col_compare_lt_trans c x y z :
  col_compare c x y = Lt → col_compare c y z = Lt → col_compare c x z = Lt.
Proof.
  destruct c; simpl; eauto using str_compare_lt_trans.
  rewrite !Z.compare_lt_iff. lia.
Qed.

Lemma lex_compare_antisym cols x y :
  lex_compare cols y x = CompOpp (lex_compare cols x y).
Proof.
  induction cols as [|c cols IH]; simpl; [done|].
  rewrite (col_compare_antisym c x y). by destruct (col_compare c x y).
Qed.

Lemma lex_compare_eq_l cols x y z :
  lex_compare cols x y = Eq → lex_compare cols x z = lex_compare cols y z.
Proof.
  induction cols as [|c cols IH]; simpl; [done|].
  destruct (col_compare c x y) eqn:E; [|done..].
  rewrite (col_compare_eq_l _ _ _ z E). intros H. by rewrite IH.
Qed.

Lemma lex_compare_lt_trans cols x y z :
  lex_compare cols x y = Lt → lex_compare cols y z = Lt →
  lex_compare cols x z = Lt.
Proof.
  induction cols as [|c cols IH]; simpl; [done|].
  destruct (col_compare c x y) eqn:E1; [| |done];
    destruct (col_compare c y z) eqn:E2; try done; intros H1 H2.
  - rewrite (col_compare_eq_l _ _ _ z E1), E2. eauto.
  - by rewrite (col_compare_eq_l _ _ _ z E1), E2.
  - by rewrite <-(col_compare_eq_r _ x _ _ E2), E1.
  - by rewrite (col_compare_lt_trans _ _ _ _ E1 E2).
Qed.

(** The items [sort_order] picks for two records have the same type
    position by position, so [<] on them never meets a string and an
    integer. *)
Lemma sort_order_shape self x y :
  Forall2 (λ v w, match v, w with
                  | VStr _, VStr _ | VInt _, VInt _ => True
                  | _, _ => False
                  end) (sort_order self x) (sort_order self y).
Proof.
  unfold sort_order. induction (sort_by self) as [|c cols IH]; simpl;
    constructor; [by destruct c|done].
Qed.

Lemma value_eqb_col c x y :
  value_eqb (item x (translate c)) (item y (translate c)) = true ↔
  col_compare c x y = Eq.
Proof.
  rewrite col_compare_eq.
  destruct c; simpl; rewrite ?bool_decide_eq_true, ?Z.eqb_eq; split; congruence.
Qed.

Lemma value_lt_col c x y :
  value_lt (item x (translate c)) (item y (translate c)) = true ↔
  col_compare c x y = Lt.
Proof.
  destruct c; simpl; rewrite ?str_lt_compare, ?Z.ltb_lt, ?Z.compare_lt_iff; done.
Qed.

Lemma list_lt_sort_order self x y :
  list_lt (sort_order self x) (sort_order self y) = true ↔
  lex_compare (sort_by self) x y = Lt.
Proof.
  unfold sort_order. induction (sort_by self) as [|c cols IH]; simpl; [done|].
  destruct (value_eqb _ _) eqn:E.
  - apply value_eqb_col in E as ->. apply IH.
  - rewrite value_lt_col.
    destruct (col_compare c x y) eqn:E'; try done.
    apply value_eqb_col in E'. congruence.
Qed.

End OrderFacts.

(** C4: [sort_results] returns its input rearranged so that any two
    records stand in the composite order of the key sequence (first key
    primary, later keys breaking ties; strings compared case-sensitively,
    sizes numerically), read in reverse as a whole when the descending flag
    is set, and records tied on every key keep their input order. *)
Theorem sort_results_ordered_stable (self : Scopy.scopy) (results : list Scopy.file_record) :
  Scopy.sort_results self results ≡ₚ results ∧
  StronglySorted (Spec.in_order (Scopy.sort_by self) (Scopy.descending self))
    (Scopy.sort_results self results) ∧
  ∀ a : Scopy.file_record,
    filter (Spec.tied (Scopy.sort_by self) a) (Scopy.sort_results self results) =
    filter (Spec.tied (Scopy.sort_by self) a) results.
Proof.
  unfold Scopy.sort_results. split_and!.
  - apply sorted_Permutation.
  - apply (sorted_ordered _ (Spec.lex_compare (Scopy.sort_by self))
             (list_lt_sort_order self) (lex_compare_antisym _)
             (lex_compare_lt_trans _) (lex_compare_eq_l _)).
  - intros a.
    apply (sorted_stable _ (Spec.lex_compare (Scopy.sort_by self))
             (list_lt_sort_order self) (lex_compare_eq_l _)).
Qed.

(** C9: sorting is idempotent: sorting the output of [sort_results] again
    with the same keys and flag gives that output back. *)
Theorem sort_results_idempotent (self : Scopy.scopy) (results : list Scopy.file_record) :
  Scopy.sort_results self (Scopy.sort_results self results) =
  Scopy.sort_results self results.
Proof.
  unfold Scopy.sort_results.
  apply (sorted_idempotent _ (Spec.lex_compare (Scopy.sort_by self))
           (list_lt_sort_order self) (lex_compare_antisym _)
           (lex_compare_lt_trans _) (lex_compare_eq_l _)).
Qed.

(** ** Minimum-size parsing *)

Section MinsizeFacts.
Import Py Scopy.

Lemma set_minsize_alpha pre c w :
  isalpha c = true →
  _set_minsize (pre ++ [c]) w = parse_size pre (translate_suffix (lower_char c)) w.
Proof.
  intros Hc. unfold _set_minsize. rewrite last_snoc, Hc. cbv zeta.
  unfold slice_to, adjust, len. rewrite length_app. simpl length.
  change (-1 <? 0) with true. cbv iota.
  replace (Z.to_nat (Z.max 0 (-1 + Z.of_nat (length pre + 1)))) with (length pre) by lia.
  by rewrite take_app_length.
Qed.

Lemma set_minsize_plain s c w :
  last s = Some c → isalpha c = false → _set_minsize s w = parse_size s 1 w.
Proof. intros Hl Hc. unfold _set_minsize. by rewrite Hl, Hc. Qed.

Lemma translate_suffix_pos c : 0 < translate_suffix c.
Proof. unfold translate_suffix. repeat case_match; lia. Qed.

Lemma lstrip_subseteq s : lstrip s ⊆ s.
Proof.
  induction s as [|c s IH]; simpl; [done|].
  destruct (is_int_space c); [|done]. set_solver.
Qed.

Lemma rstrip_subseteq s : rstrip s ⊆ s.
Proof.
  unfold rstrip. intros x Hx%elem_of_reverse%lstrip_subseteq.
  by rewrite elem_of_reverse in Hx.
Qed.

Lemma digits_value_nonneg acc b s n :
  0 <= acc → digits_value acc b s = Some n → 0 <= n.
Proof.
  revert acc b. induction s as [|c s IH]; intros acc b Hacc; simpl.
  - destruct b; [|done]. by intros [= <-].
  - destruct (is_digit c) eqn:Hd.
    + apply IH. unfold is_digit in Hd. lia.
    + destruct (Ascii.eqb c "_" && b); [|done]. by apply IH.
Qed.

Lemma int_nonneg s n : "-"%char ∉ s → int s = Some n → 0 <= n.
Proof.
  intros Hs. unfold int.
  assert ("-"%char ∉ rstrip (lstrip s)) as Hs'.
  { intros H%rstrip_subseteq%lstrip_subseteq. done. }
  destruct (rstrip (lstrip s)) as [|c ds]; [done|].
  destruct (Ascii.eqb_spec c "+") as [->|Hp].
  { apply digits_value_nonneg. done. }
  destruct (Ascii.eqb_spec c "-") as [->|Hm]; [set_solver|].
  assert (∀ o : option Z, o = digits_value 0 false (c :: ds) →
            o = Some n → 0 <= n) as Hgen.
  { intros o -> H. by eapply digits_value_nonneg in H. }
  intros H. eapply Hgen; [|exact H].
  repeat (destruct c as [[] [] [] [] [] [] [] []]; try done).
Qed.

Lemma parse_size_nonneg size multi w n w' :
  "-"%char ∉ size → 0 <= multi →
  parse_size size multi w = (Ok n, w') → 0 <= n.
Proof.
  intros Hs Hm. unfold parse_size. destruct (int size) as [k|] eqn:E.
  - intros [= <- _]. apply int_nonneg in E; [lia|done].
  - intros [= <- _]. done.
Qed.

Lemma set_minsize_nonneg s w n w' :
  "-"%char ∉ s → _set_minsize s w = (Ok n, w') → 0 <= n.
Proof.
  intros Hs. unfold _set_minsize. destruct (last s) as [c|]; [|done].
  destruct (isalpha c).
  - apply parse_size_nonneg; [|pose proof (translate_suffix_pos (lower_char c)); lia].
    unfold slice_to. intros (i & Hi & _)%elem_of_take.
    apply Hs. by eapply list_elem_of_lookup_2.
  - by apply parse_size_nonneg.
Qed.

Lemma set_minsize_value s w n w' :
  _set_minsize s w = (Ok n, w') →
  n = match int (Spec.numeric_part s) with
      | Some k => Spec.multiplier s * k
      | None => 0
      end.
Proof.
  unfold _set_minsize, Spec.numeric_part, Spec.multiplier.
  destruct (last s) as [c|]; [|done].
  destruct (isalpha c); unfold parse_size.
  - destruct (int (slice_to s (-1))) as [k|]; by intros [= <- _].
  - destruct (int s) as [k|]; [|by intros [= <- _]]. intros [= <- _]. lia.
Qed.

Lemma multiplier_pos s : 0 < Spec.multiplier s.
Proof.
  unfold Spec.multiplier. destruct (last s) as [c|]; [|lia].
  destruct (isalpha c); [apply translate_suffix_pos|lia].
Qed.

Lemma set_minsize_raise s w e w' :
  _set_minsize s w = (Raise e, w') → s = [] ∧ e = IndexError ∧ w' = w.
Proof.
  unfold _set_minsize. destruct (last s) as [c|] eqn:El.
  - assert (∀ size multi, parse_size size multi w ≠ (Raise e, w')) as Hp.
    { intros size multi. unfold parse_size. by destruct (int size). }
    destruct (isalpha c); intros H; by apply Hp in H.
  - apply last_None in El. by intros [= <- <-].
Qed.

Lemma init_ok a w :
  a_minsize a ≠ [] → ∃ self w', init a w = (Ok self, w').
Proof.
  intros Hne. unfold init, mbind, M_bind.
  destruct (_set_minsize (a_minsize a) w) as [[n|e] w1] eqn:E.
  - eauto.
  - apply set_minsize_raise in E as [? _]. done.
Qed.

End MinsizeFacts.

(** C6: [_set_minsize] takes an alphabetic last character as the unit
    ([k] is 1024, [m] is 1024^2, [g] is 1024^3, matched after lower-casing,
    any other letter 1) and parses what precedes it as an integer; without
    such a suffix it parses the whole string; a string that does not parse
    gives 0 and a two-line warning on the console.  So [64k] is 65536, [2m]
    is 2097152, [100] is 100, and [abc] is 0 with the warning. *)
Theorem set_minsize_parsing :
  (∀ (pre : str) (c : ascii) (w : Py.world), Py.isalpha c = true →
     Scopy._set_minsize (pre ++ [c]) w =
     Scopy.parse_size pre
       (if bool_decide (Py.lower_char c = "k"%char) then 1024
        else if bool_decide (Py.lower_char c = "m"%char) then 1024 ^ 2
        else if bool_decide (Py.lower_char c = "g"%char) then 1024 ^ 3
        else 1) w) ∧
  (∀ (s : str) (c : ascii) (w : Py.world), last s = Some c → Py.isalpha c = false →
     Scopy._set_minsize s w = Scopy.parse_size s 1 w) ∧
  (∀ (size : str) (multi n : Z) (w : Py.world), Py.int size = Some n →
     Scopy.parse_size size multi w = (Py.Ok (multi * n), w)) ∧
  (∀ (size : str) (multi : Z) (w : Py.world), Py.int size = None →
     Scopy.parse_size size multi w =
     (Py.Ok 0,
      {| Py.console := Py.console w ++
           [lit "WARNING: Not a valid format for file size!";
            lit "Using the default value: 0" ++ ["010"%char]];
         Py.files := Py.files w; Py.calls := Py.calls w |})) ∧
  (∀ w : Py.world,
     Scopy._set_minsize (lit "64k") w = (Py.Ok 65536, w) ∧
     Scopy._set_minsize (lit "2m") w = (Py.Ok 2097152, w) ∧
     Scopy._set_minsize (lit "100") w = (Py.Ok 100, w) ∧
     Scopy._set_minsize (lit "abc") w =
     (Py.Ok 0,
      {| Py.console := Py.console w ++
           [lit "WARNING: Not a valid format for file size!";
            lit "Using the default value: 0" ++ ["010"%char]];
         Py.files := Py.files w; Py.calls := Py.calls w |})).
Proof.
  split_and!.
  - intros pre c w Hc. rewrite set_minsize_alpha by done.
    unfold Scopy.translate_suffix.
    assert (∀ x y, Ascii.eqb x y = bool_decide (x = y)) as E.
    { intros x y. destruct (Ascii.eqb_spec x y);
        [by rewrite bool_decide_eq_true_2|by rewrite bool_decide_eq_false_2]. }
    by rewrite !E.
  - apply set_minsize_plain.
  - intros size multi n w H. unfold Scopy.parse_size. by rewrite H.
  - intros size multi w H. unfold Scopy.parse_size. rewrite H.
    destruct w. unfold mbind, Py.M_bind, Py.print, mret, Py.M_ret. simpl.
    by rewrite <-app_assoc.
  - intros [c f k]. split_and!; try reflexivity.
    unfold Scopy._set_minsize, Scopy.parse_size. simpl.
    unfold mbind, Py.M_bind, Py.print, mret, Py.M_ret. simpl.
    by rewrite <-app_assoc.
Qed.

Lemma set_minsize_parsing_witness :
  let w := {| Py.console := []; Py.files := ∅; Py.calls := [] |} in
  Scopy._set_minsize (lit "64" ++ ["K"%char]) w = Scopy.parse_size (lit "64") 1024 w ∧
  Scopy._set_minsize (lit "100") w = Scopy.parse_size (lit "100") 1 w ∧
  Scopy.parse_size (lit "64") 1024 w = (Py.Ok (1024 * 64), w) ∧
  (Scopy.parse_size (lit "ab") 1 w).1 = Py.Ok 0.
Proof.
  intros w. destruct set_minsize_parsing as (H1 & H2 & H3 & H4 & _). split_and!.
  - apply (H1 (lit "64") "K"%char w). reflexivity.
  - apply (H2 (lit "100") "0"%char w); reflexivity.
  - apply (H3 (lit "64") 1024 64 w). reflexivity.
  - rewrite (H4 (lit "ab") 1 w); reflexivity.
Defined.

(** C8 (as stated, refuted): the minimum-size string [-5] is accepted and
    parsed, and the threshold stored in the configuration is -5. *)
Lemma init_minsize_negative :
  let w := {| Py.console := []; Py.files := ∅; Py.calls := [] |} in
  let a := {| Scopy.a_directory := lit "."; Scopy.a_ext := [lit "pdf"];
              Scopy.a_no_subs := false; Scopy.a_filters := None;
              Scopy.a_minsize := lit "-5"; Scopy.a_ignore := None;
              Scopy.a_raw := false; Scopy.a_sort_by := [Scopy.Col_n];
              Scopy.a_descending := false; Scopy.a_verbose := false;
              Scopy.a_outfile := None |} in
  ∃ self, Scopy.init a w = (Py.Ok self, w) ∧ Scopy.minsize self = -5 ∧
          ¬ (0 <= Scopy.minsize self).
Proof.
  intros w a. eexists. split_and!; [reflexivity|reflexivity|].
  intros H. vm_compute in H. by apply H.
Qed.

(** C8 (amended): [__init__] accepts every minimum-size string that is
    not empty, and the threshold it stores is the multiplier of the unit,
    always positive, times the integer the numeric part parses to, and 0
    when that part does not parse.  So the threshold is at least 0 exactly
    when the numeric part does not parse to a negative integer, which
    covers every string that fails to parse and every string without a
    minus sign, and it is negative exactly when the numeric part parses to
    a negative integer. *)
Theorem init_minsize_nonneg (a : Scopy.args) (w : Py.world) :
  Scopy.a_minsize a ≠ [] →
  ∃ (self : Scopy.scopy) (w' : Py.world),
    Scopy.init a w = (Py.Ok self, w') ∧
    let part := Spec.numeric_part (Scopy.a_minsize a) in
    let multi := Spec.multiplier (Scopy.a_minsize a) in
    0 < multi ∧
    Scopy.minsize self = match Py.int part with Some n => multi * n | None => 0 end ∧
    (0 <= Scopy.minsize self ↔ ∀ n, Py.int part = Some n → 0 <= n) ∧
    (Scopy.minsize self < 0 ↔ ∃ n, Py.int part = Some n ∧ n < 0) ∧
    ("-"%char ∉ Scopy.a_minsize a → 0 <= Scopy.minsize self).
Proof.
  intros Hne. destruct (init_ok a w Hne) as (self & w' & Hinit).
  exists self, w'. split; [exact Hinit|]. intros part multi.
  assert (Scopy._set_minsize (Scopy.a_minsize a) w = (Py.Ok (Scopy.minsize self), w'))
    as Hset.
  { revert Hinit. unfold Scopy.init, mbind, Py.M_bind.
    destruct (Scopy._set_minsize (Scopy.a_minsize a) w) as [[n|e] w1]; [|done].
    by intros [= <- <-]. }
  pose proof (multiplier_pos (Scopy.a_minsize a)) as Hpos. fold multi in Hpos.
  pose proof (set_minsize_value _ _ _ _ Hset) as Hval. fold part multi in Hval.
  split_and!; [done|done| | |].
  - rewrite Hval. destruct (Py.int part) as [k|]; split.
    + intros Hk n [= <-]. nia.
    + intros Hk. specialize (Hk k eq_refl). nia.
    + by intros _ n.
    + done.
  - rewrite Hval. destruct (Py.int part) as [k|]; split.
    + intros Hk. exists k. split; [done|nia].
    + intros (n & [= <-] & Hn). nia.
    + lia.
    + by intros (n & [=] & _).
  - intros Hs. by eapply set_minsize_nonneg.
Qed.

Lemma init_minsize_nonneg_witness :
  (∃ self w', Scopy.init (Sample.with_minsize "5-") Sample.w0 = (Py.Ok self, w') ∧
              0 <= Scopy.minsize self) ∧
  (∃ self w', Scopy.init (Sample.with_minsize "-0k") Sample.w0 = (Py.Ok self, w') ∧
              0 <= Scopy.minsize self) ∧
  (∃ self w', Scopy.init (Sample.with_minsize "-1k") Sample.w0 = (Py.Ok self, w') ∧
              Scopy.minsize self < 0).
Proof.
  split_and!.
  - destruct (init_minsize_nonneg (Sample.with_minsize "5-") Sample.w0)
      as (self & w' & Hinit & H); [done|].
    cbv zeta in H. destruct H as (_ & _ & Hge & _ & _).
    exists self, w'. split; [exact Hinit|].
    apply Hge. intros n Hn. vm_compute in Hn. discriminate Hn.
  - destruct (init_minsize_nonneg (Sample.with_minsize "-0k") Sample.w0)
      as (self & w' & Hinit & H); [done|].
    cbv zeta in H. destruct H as (_ & _ & Hge & _ & _).
    exists self, w'. split; [exact Hinit|].
    apply Hge. intros n Hn. vm_compute in Hn. injection Hn as <-. lia.
  - destruct (init_minsize_nonneg (Sample.with_minsize "-1k") Sample.w0)
      as (self & w' & Hinit & H); [done|].
    cbv zeta in H. destruct H as (_ & _ & _ & Hlt & _).
    exists self, w'. split; [exact Hinit|].
    apply Hlt. exists (-1). split; [vm_compute; reflexivity|lia].
Defined.

(** ** Discovery *)

Section DiscoveryFacts.
Import Py Scopy Spec.

Lemma startswith_spec s p : startswith s p = true ↔ ∃ post, s = p ++ post.
Proof.
  revert s. induction p as [|a p IH]; intros [|b s]; simpl.
  - split; eauto.
  - split; eauto.
  - split; [done|by intros [? [=]]].
  - rewrite andb_true_iff, IH. split.
    + intros [Hab [post ->]]. apply Ascii.eqb_eq in Hab as ->. eauto.
    + intros [post [= -> ->]]. rewrite Ascii.eqb_refl. eauto.
Qed.

Lemma contains_spec hay needle :
  contains hay needle = true ↔ ∃ pre post, hay = pre ++ needle ++ post.
Proof.
  induction hay as [|c hay IH]; cbn [contains].
  - rewrite orb_false_r, startswith_spec. split.
    + intros [post ->]. by exists [], post.
    + intros (pre & post & H). symmetry in H.
      apply app_eq_nil in H as [_ [-> _]%app_eq_nil]. by exists [].
  - rewrite orb_true_iff, startswith_spec, IH. split.
    + intros [[post ->]|(pre & post & ->)].
      * by exists [], post.
      * by exists (c :: pre), post.
    + intros ([|c' pre] & post & H); simpl in H.
      * left. eauto.
      * injection H as -> ->. right. eauto.
Qed.

Lemma satisfies_filters_passes self filename e filesize directory :
  _satisfies_filters self filename e filesize = true →
  passes self {| r_filename := filename; r_ext := e;
                 r_filesize := filesize; r_directory := directory |}.
Proof.
  unfold _satisfies_filters, passes. cbv zeta. simpl.
  rewrite !andb_true_iff, bool_decide_eq_true, Z.leb_le.
  intros [[Hf He] Hs]. split_and!; [done..|].
  intros fs Hfs Hne. rewrite Hfs in Hf. destruct fs as [|f0 fs]; [done|].
  apply existsb_exists in Hf as (filt & Hin & Hc).
  apply contains_spec in Hc as (pre & post & Hc).
  exists filt, pre, post. split; [|done]. by apply list_elem_of_In.
Qed.

Lemma search_entry_passes self directory results entry :
  Forall (passes self) results →
  Forall (passes self) (search_entry self directory results entry).
Proof.
  intros Hr. destruct entry as [file filesize|]; cbn [search_entry]; [|done].
  destruct (_split file) as [filename e].
  destruct (_satisfies_filters self filename e filesize) eqn:E; [|done].
  apply Forall_app. split; [done|].
  constructor; [|constructor]. by apply satisfies_filters_passes.
Qed.

Lemma search_directory_passes self directory listing :
  Forall (passes self) (_search_directory self directory listing).
Proof.
  unfold _search_directory.
  assert (∀ acc, Forall (passes self) acc →
            Forall (passes self) (foldl (search_entry self directory) acc listing))
    as H; [|by apply H].
  induction listing as [|entry listing IH]; intros acc Hacc; simpl; [done|].
  by apply IH, search_entry_passes.
Qed.

Lemma remove_first_length d dirs :
  (length (remove_first d dirs) <= length dirs)%nat.
Proof.
  induction dirs as [|x dirs IH]; simpl; [done|].
  destruct (bool_decide (x = d)); simpl; lia.
Qed.

(** The fuel [_ignore_directories] gives its loop is never what stops it:
    one more unit changes nothing. *)
Lemma ignore_loop_fuel self fuel i dirs :
  (length dirs <= i + fuel)%nat →
  ignore_loop self (S fuel) i dirs = ignore_loop self fuel i dirs.
Proof.
  revert i dirs. induction fuel as [|fuel IH]; intros i dirs Hlen.
  - cbn [ignore_loop]. rewrite lookup_ge_None_2 by lia. done.
  - change (ignore_loop self (S (S fuel)) i dirs) with
      (match dirs !! i with
       | None => dirs
       | Some d =>
           if ignored self d
           then ignore_loop self (S fuel) (S i) (remove_first d dirs)
           else ignore_loop self (S fuel) (S i) dirs
       end).
    cbn [ignore_loop]. destruct (dirs !! i) as [d|]; [|done].
    pose proof (remove_first_length d dirs).
    destruct (ignored self d); apply IH; lia.
Qed.

Lemma node_nested_ind (P : node → Prop) :
  (∀ name size, P (File name size)) →
  (∀ name listing, Forall P listing → P (Dir name listing)) →
  ∀ top, P top.
Proof.
  intros Hfile Hdir. fix IH 1. intros [name size|name listing]; [apply Hfile|].
  apply Hdir. revert listing. fix IHl 1.
  intros [|sub listing]; constructor; [apply IH|apply IHl].
Qed.

Lemma search_walk_passes self top :
  ∀ path, Forall (passes self) (search_walk self path top).
Proof.
  induction top as [name size|name listing IH] using node_nested_ind;
    intros path; cbn [search_walk]; [constructor|].
  apply Forall_app. split; [apply search_directory_passes|].
  generalize (match ignore self with
              | Some (_ :: _) => _ignore_directories self (dir_names listing)
              | _ => dir_names listing
              end) as dirs.
  intros dirs. induction IH as [|sub listing Hsub _ IHl]; simpl; [constructor|].
  apply Forall_app. split; [|exact IHl].
  destruct sub as [|sub_name sub_listing]; [constructor|].
  destruct (bool_decide (sub_name ∈ dirs)); [apply Hsub|constructor].
Qed.

Lemma get_results_passes self disk w w' results :
  get_results self disk w = (Ok (Some results), w') →
  Forall (passes self) results.
Proof.
  unfold get_results. destruct disk as [listing|]; [|by inversion 1].
  intros [= <- _]. destruct (no_subs self).
  - apply search_directory_passes.
  - apply search_walk_passes.
Qed.

End DiscoveryFacts.

(** C1: every record discovery returns, in either traversal mode, passes
    the three filters: its extension is in the accepted set, its size is at
    least the threshold, and when name filters are given one of them occurs
    in the base name, both lower-cased. *)
Theorem discovery_passes_filters (self : Scopy.scopy) (disk : option (list Scopy.node))
    (w w' : Py.world) (results : list Scopy.file_record) (r : Scopy.file_record) :
  Scopy.get_results self disk w = (Py.Ok (Some results), w') →
  r ∈ results →
  Scopy.r_ext r ∈ Scopy.ext self ∧
  Scopy.minsize self <= Scopy.r_filesize r ∧
  ∀ fs, Scopy.filters self = Some fs → fs ≠ [] →
    ∃ filt pre post, filt ∈ fs ∧
      Py.lower (Scopy.r_filename r) = pre ++ Py.lower filt ++ post.
Proof.
  intros Hres Hr. apply get_results_passes in Hres.
  by apply (proj1 (list.Forall_forall _ _) Hres).
Qed.

Lemma discovery_passes_filters_witness :
  Scopy.get_results Sample.filtered (Some Sample.shelf) Sample.w0 =
    (Py.Ok (Some [Sample.my_book; Sample.handbook]), Sample.w0) ∧
  Scopy.minsize Sample.filtered <= Scopy.r_filesize Sample.handbook ∧
  ∃ filt pre post, filt ∈ [lit "Book"] ∧
    Py.lower (Scopy.r_filename Sample.handbook) = pre ++ Py.lower filt ++ post.
Proof.
  assert (Scopy.get_results Sample.filtered (Some Sample.shelf) Sample.w0 =
          (Py.Ok (Some [Sample.my_book; Sample.handbook]), Sample.w0)) as E
    by (vm_compute; reflexivity).
  split; [exact E|].
  destruct (discovery_passes_filters _ _ _ _ _ Sample.handbook E) as (_ & Hs & Hf).
  { apply elem_of_cons. right. apply elem_of_cons. by left. }
  split; [exact Hs|]. by apply Hf.
Defined.

(** C2 (the code at the failing input): with the ignore list [draft] and
    the subdirectories [draft1] and [draft2] listed in that order, the
    pruning loop removes [draft1], skips [draft2], and the recursive scan
    returns the file found under [draft2]. *)
Theorem ignore_skips_next_directory :
  Scopy._ignore_directories Sample.books [lit "draft1"; lit "draft2"] =
    [lit "draft2"] ∧
  Scopy.get_results Sample.books (Some Sample.two_drafts) Sample.w0 =
    (Py.Ok (Some [{| Scopy.r_filename := lit "b"; Scopy.r_ext := lit ".pdf";
                     Scopy.r_filesize := 20;
                     Scopy.r_directory := lit "lib/draft2" |}]), Sample.w0).
Proof. split; vm_compute; reflexivity. Qed.

(** ** The run on an invalid root *)

(** C5: when the root is not a directory, [run] prints the diagnostic and
    nothing else, enters no method after [get_results], and leaves the
    files alone whatever output file was asked for. *)
Theorem run_invalid_directory (self : Scopy.scopy) (abspath : str) (w : Py.world) :
  Scopy.run self None abspath w =
  (Py.Ok (),
   {| Py.console := Py.console w ++
        [Scopy.directory self ++ lit " is not a valid directory!"];
      Py.files := Py.files w;
      Py.calls := Py.calls w ++ [Py.GetResults] |}).
Proof. reflexivity. Qed.

(** ** Trimming *)

Section TrimFacts.
Import Py Scopy.

Lemma shorten_fits p : (length (shorten p) <= 47)%nat.
Proof.
  funelim (shorten p); [done|].
  unfold MAX_WIDTH, len in *. lia.
Qed.

Lemma slice_to_take (s : str) (n : nat) :
  (n <= length s)%nat → slice_to s (Z.of_nat n) = take n s.
Proof.
  intros Hn. unfold slice_to, adjust, len.
  destruct (Z.ltb_spec (Z.of_nat n) 0); [lia|].
  rewrite Z.min_l by lia. by rewrite Nat2Z.id.
Qed.









End TrimFacts.




(** ** Size formatting *)

Section ConvertFacts.
Import Py Scopy.
Local Open Scope Q_scope.

Lemma compare_1024 {A : Type} (q : Q) (x y z : A) :
  match q ?= 1024 with Lt => x | Eq => y | Gt => z end =
  if Qlt_le_dec q 1024 then x
  else match q ?= 1024 with Lt => x | Eq => y | Gt => z end.
Proof. by destruct (Qlt_le_dec q 1024) as [->%Qlt_alt|]. Qed.

Lemma compare_1024_le {A : Type} (q : Q) (x y : A) :
  1024 <= q → match q ?= 1024 with Lt => x | _ => y end = y.
Proof.
  intros H. destruct (q ?= 1024) eqn:E; [done| |done].
  apply Qlt_alt in E. lra.
Qed.

Lemma convert_bytes_none (size : Z) :
  _convert_bytes size = None ↔ (1024 ^ 5 <= size)%Z.
Proof.
  unfold _convert_bytes. cbn [convert_loop].
  rewrite Zle_Qle. change (inject_Z (1024 ^ 5)) with (1125899906842624 # 1).
  generalize (inject_Z size) as q. intros q.
  unfold Qdiv. change (/ 1024) with (1 # 1024).
  repeat (rewrite compare_1024;
          match goal with
          | |- context [Qlt_le_dec ?a 1024] =>
              destruct (Qlt_le_dec a 1024) as [?|?];
              [split; [done|intros; exfalso; lra]
              |rewrite (compare_1024_le a) by done]
          end).
  split; [intros _; lra|done].
Qed.

Lemma convert_bytes_some (size : Z) :
  (∃ s, _convert_bytes size = Some s) ↔ (size < 1024 ^ 5)%Z.
Proof.
  pose proof (convert_bytes_none size) as H.
  destruct (_convert_bytes size) as [s|]; split.
  - intros _. destruct (Z.lt_ge_cases size (1024 ^ 5)) as [|Hge]; [done|].
    by apply H in Hge.
  - eauto.
  - by intros [s [=]].
  - intros Hlt. assert (1024 ^ 5 <= size)%Z by by apply H. lia.
Qed.

Lemma format_row_raise self r :
  format_row self r = Raise TypeError ↔ (1024 ^ 5 <= r_filesize r)%Z.
Proof.
  rewrite <-convert_bytes_none. unfold format_row.
  destruct (_trimmed _ _ _) as [name rel].
  by destruct (_convert_bytes (r_filesize r)).
Qed.

Lemma format_row_cases self r :
  format_row self r = Raise TypeError ∨ ∃ row, format_row self r = Ok row.
Proof.
  unfold format_row. destruct (_trimmed _ _ _) as [name rel].
  destruct (_convert_bytes (r_filesize r)); eauto.
Qed.

Lemma format_rows_raise self results :
  format_rows self results = Raise TypeError ↔
  ∃ r, r ∈ results ∧ (1024 ^ 5 <= r_filesize r)%Z.
Proof.
  induction results as [|r results IH]; cbn [format_rows].
  - split; [done|]. intros (r & Hr & _). by apply elem_of_nil in Hr.
  - destruct (format_row_cases self r) as [E|[row E]]; rewrite E.
    + split; [|done]. intros _. exists r. split; [by left|].
      by apply (format_row_raise self).
    + assert (¬ (1024 ^ 5 <= r_filesize r)%Z) as Hr.
      { rewrite <-(format_row_raise self), E. done. }
      destruct (format_rows self results) as [rows|e] eqn:Erows.
      * split; [done|]. intros (r' & [->|Hin]%elem_of_cons & Hsize); [done|].
        assert (Ok rows = Raise TypeError) as [=]. apply IH. eauto.
      * split.
        -- intros [= ->]. destruct (proj1 IH eq_refl) as (r' & Hin & Hsize).
           exists r'. split; [by right|done].
        -- intros (r' & [->|Hin]%elem_of_cons & Hsize); [done|].
           f_equal. assert (Raise (A:=list str) e = Raise TypeError) as [=]; [|done].
           apply IH. eauto.
Qed.

Lemma format_rows_cases self results :
  format_rows self results = Raise TypeError ∨
  ∃ rows, format_rows self results = Ok rows.
Proof.
  induction results as [|r results IH]; cbn [format_rows]; [eauto|].
  destruct (format_row_cases self r) as [->|[row ->]]; [eauto|].
  destruct IH as [->|[rows ->]]; eauto.
Qed.

Lemma format_results_raise self abspath results :
  format_results self abspath results = Raise TypeError ↔
  ∃ r, r ∈ results ∧ (1024 ^ 5 <= r_filesize r)%Z.
Proof.
  rewrite <-(format_rows_raise self). unfold format_results.
  destruct (format_rows self results) as [rows|e].
  - by destruct (verbose self).
  - split; by intros [= ->].
Qed.

Lemma format_results_ok self abspath results :
  (∃ report, format_results self abspath results = Ok report) ↔
  ∀ r, r ∈ results → (r_filesize r < 1024 ^ 5)%Z.
Proof.
  pose proof (format_results_raise self abspath results) as H.
  assert (format_results self abspath results = Raise TypeError ∨
          ∃ report, format_results self abspath results = Ok report) as [E|[report E]].
  { unfold format_results.
    destruct (format_rows_cases self results) as [->|[rows ->]]; [by left|].
    right. destruct (verbose self); eauto. }
  - rewrite E. split; [by intros [? [=]]|]. intros Hall.
    destruct (proj1 H E) as (r & Hin & Hsize). apply Hall in Hin. lia.
  - split; [|eauto]. intros _ r Hin.
    destruct (Z.lt_ge_cases (r_filesize r) (1024 ^ 5)) as [|Hge]; [done|].
    assert (format_results self abspath results = Raise TypeError) as E'
      by (apply H; eauto).
    congruence.
Qed.

End ConvertFacts.

(** C10 (as stated, refuted): for the size 1024^5 [_convert_bytes] returns
    [None], and [format_results] on a record of that size raises
    [TypeError] instead of returning a report with a size column. *)
Lemma format_results_none_size_raises :
  Scopy._convert_bytes (1024 ^ 5) = None ∧
  Scopy.format_results Sample.books (lit "/home/u/lib") [Sample.huge] =
    Py.Raise Py.TypeError ∧
  ¬ ∃ report, Scopy.format_results Sample.books (lit "/home/u/lib") [Sample.huge] =
              Py.Ok report.
Proof.
  assert (Scopy.format_results Sample.books (lit "/home/u/lib") [Sample.huge] =
          Py.Raise Py.TypeError) as E by (vm_compute; reflexivity).
  split_and!; [vm_compute; reflexivity|exact E|].
  rewrite E. by intros [report [=]].
Qed.

(** C10 (amended): [_convert_bytes] returns a formatted string exactly for
    the sizes below 1024^5 and [None] exactly for the sizes from 1024^5 on;
    [format_results] returns a report exactly when every record is below
    1024^5 and raises [TypeError] exactly when some record is not. *)
Theorem convert_bytes_none_from_1024_pow_5 :
  (∀ size : Z, (∃ s, Scopy._convert_bytes size = Some s) ↔ size < 1024 ^ 5) ∧
  (∀ size : Z, Scopy._convert_bytes size = None ↔ 1024 ^ 5 <= size) ∧
  (∀ (self : Scopy.scopy) (abspath : str) (results : list Scopy.file_record),
     Scopy.format_results self abspath results = Py.Raise Py.TypeError ↔
     ∃ r, r ∈ results ∧ 1024 ^ 5 <= Scopy.r_filesize r) ∧
  (∀ (self : Scopy.scopy) (abspath : str) (results : list Scopy.file_record),
     (∃ report, Scopy.format_results self abspath results = Py.Ok report) ↔
     ∀ r, r ∈ results → Scopy.r_filesize r < 1024 ^ 5).
Proof.
  split_and!.
  - apply convert_bytes_some.
  - apply convert_bytes_none.
  - apply format_results_raise.
  - apply format_results_ok.
Qed.

Lemma convert_bytes_none_from_1024_pow_5_witness :
  (∃ s, Scopy._convert_bytes (1024 ^ 5 - 1) = Some s) ∧
  Scopy._convert_bytes (1024 ^ 5 + 7) = None ∧
  Scopy.format_results Sample.filtered [] [Sample.my_book; Sample.huge] =
    Py.Raise Py.TypeError.
Proof.
  destruct convert_bytes_none_from_1024_pow_5 as (H1 & H2 & H3 & _).
  split_and!.
  - apply H1. lia.
  - apply H2. lia.
  - apply H3. exists Sample.huge. split.
    + apply elem_of_cons. right. apply elem_of_cons. by left.
    + simpl. lia.
Defined.

(** ** The model on the scenarios of the specification *)

(** Upper case sorts before lower case: the ordering is by character code. *)
Example sort_by_name_is_case_sensitive :
  Scopy.sort_results Sample.books
    [Sample.rec "b" ".pdf" 1 "lib"; Sample.rec "B" ".pdf" 2 "lib";
     Sample.rec "a" ".pdf" 3 "lib"] =
    [Sample.rec "B" ".pdf" 2 "lib"; Sample.rec "a" ".pdf" 3 "lib";
     Sample.rec "b" ".pdf" 1 "lib"].
Proof. reflexivity. Qed.

(** Descending order flips the composite order of extension then name. *)
Example sort_descending_flips_composite :
  Scopy.sort_results Sample.by_ext_name_desc
    [Sample.rec "a" ".pdf" 1 "lib"; Sample.rec "z" ".epub" 2 "lib";
     Sample.rec "c" ".pdf" 3 "lib"; Sample.rec "b" ".epub" 4 "lib"] =
    [Sample.rec "c" ".pdf" 3 "lib"; Sample.rec "a" ".pdf" 1 "lib";
     Sample.rec "z" ".epub" 2 "lib"; Sample.rec "b" ".epub" 4 "lib"].
Proof. reflexivity. Qed.

(** Records tied on the only key keep their input order, descending too. *)
Example sort_descending_keeps_ties :
  Scopy.sort_results Sample.by_ext_desc
    [Sample.rec "a" ".pdf" 1 "lib"; Sample.rec "z" ".epub" 2 "lib";
     Sample.rec "c" ".pdf" 3 "lib"; Sample.rec "b" ".epub" 4 "lib"] =
    [Sample.rec "a" ".pdf" 1 "lib"; Sample.rec "c" ".pdf" 3 "lib";
     Sample.rec "z" ".epub" 2 "lib"; Sample.rec "b" ".epub" 4 "lib"].
Proof. reflexivity. Qed.

Example convert_bytes_units :
  Scopy._convert_bytes 0 = Some (lit "  0  B") ∧
  Scopy._convert_bytes 1024 = Some (lit "  1 KB") ∧
  Scopy._convert_bytes 1048576 = Some (lit "  1 MB") ∧
  Scopy._convert_bytes (1024 ^ 5 - 1) = Some (lit "1024 TB").
Proof. split_and!; vm_compute; reflexivity. Qed.

Example replace_symbols_my_book :
  Scopy._replace_symbols (lit "My-Book_01") = lit "My Book 01".
Proof. vm_compute. reflexivity. Qed.

(** A lone matching subdirectory is pruned with everything below it. *)
Example ignore_prunes_single_directory :
  Scopy.get_results Sample.books
    (Some [Scopy.Dir (lit "Drafts")
             [Scopy.File (lit "a.pdf") 10;
              Scopy.Dir (lit "deep") [Scopy.File (lit "b.pdf") 20]];
           Scopy.Dir (lit "final") [Scopy.File (lit "c.pdf") 30]]) Sample.w0 =
  (Py.Ok (Some [Sample.rec "c" ".pdf" 30 "lib/final"]), Sample.w0).
Proof. vm_compute. reflexivity. Qed.

(** * Further properties of the code *)

(** ** Deriving the attributes *)

Section InitFacts.
Import Py Scopy.

Lemma find_from_absent c s i : 0 <= i → find_from c s i = -1 ↔ c ∉ s.
Proof.
  revert i. induction s as [|x s IH]; intros i Hi; cbn [find_from].
  - split; [intros _ H; by apply elem_of_nil in H|done].
  - destruct (Ascii.eqb_spec x c) as [->|Hne].
    + split; [lia|]. intros H. exfalso. apply H. by left.
    + rewrite IH by lia. rewrite not_elem_of_cons. naive_solver.
Qed.

Lemma startswith_dot (s : str) :
  startswith s (lit ".") = true ↔ ∃ rest, s = "."%char :: rest.
Proof. rewrite startswith_spec. done. Qed.

Lemma elem_of_set_extensions extensions e :
  e ∈ _set_extensions extensions ↔
  ∃ x, x ∈ extensions ∧
       e = if startswith x (lit ".") then x else lit "." ++ x.
Proof.
  unfold _set_extensions. rewrite elem_of_list_to_set, list_elem_of_fmap.
  naive_solver.
Qed.

Lemma set_extensions_dotted extensions e :
  e ∈ _set_extensions extensions → ∃ rest, e = "."%char :: rest.
Proof.
  intros (x & _ & ->)%elem_of_set_extensions.
  destruct (startswith x (lit ".")) eqn:E; [by apply startswith_dot|].
  by exists x.
Qed.

Lemma split_concat file : (_split file).1 ++ (_split file).2 = file.
Proof. unfold _split, slice_to, slice_from. cbn [fst snd]. apply take_drop. Qed.

Lemma split_dotless_ext file :
  "."%char ∉ file → ¬ ∃ rest, (_split file).2 = "."%char :: rest.
Proof.
  intros Hdot [rest Hrest].
  destruct file as [|c0 file0] using rev_ind.
  - done.
  - rewrite split_no_dot in Hrest by done. cbn [snd] in Hrest.
    injection Hrest as -> _. apply Hdot. set_solver.
Qed.

End InitFacts.

(** X1: the accepted extension set holds exactly the given extensions,
    each with a dot put in front unless it already starts with one; so
    every member starts with a dot. *)
Theorem set_extensions_normalised (extensions : list str) :
  (∀ e, e ∈ Scopy._set_extensions extensions ↔
        ∃ x, x ∈ extensions ∧
             e = if Py.startswith x (lit ".") then x else "."%char :: x) ∧
  (∀ e, e ∈ Scopy._set_extensions extensions → ∃ rest, e = "."%char :: rest).
Proof.
  split.
  - apply elem_of_set_extensions.
  - apply set_extensions_dotted.
Qed.

Lemma set_extensions_normalised_witness :
  ∃ rest, lit ".pdf" = "."%char :: rest.
Proof.
  apply (proj2 (set_extensions_normalised [lit "pdf"; lit ".epub"])).
  apply (proj1 (set_extensions_normalised [lit "pdf"; lit ".epub"])).
  exists (lit "pdf"). split; [by left|reflexivity].
Defined.

(** X2: [_set_outfile] leaves a missing or empty name alone, leaves a
    name with a dot unchanged, and appends [.txt] to a name without one;
    a name it returns for a non-empty input always contains a dot. *)
Theorem set_outfile_extension (outfile : option str) :
  (Scopy.truthy outfile = false → Scopy._set_outfile outfile = outfile) ∧
  (∀ name, outfile = Some name → name ≠ [] → "."%char ∈ name →
     Scopy._set_outfile outfile = Some name) ∧
  (∀ name, outfile = Some name → name ≠ [] → "."%char ∉ name →
     Scopy._set_outfile outfile = Some (name ++ lit ".txt")) ∧
  (∀ name result, outfile = Some name → name ≠ [] →
     Scopy._set_outfile outfile = Some result → "."%char ∈ result).
Proof.
  assert (∀ name : str, name ≠ [] →
            Scopy._set_outfile (Some name) =
            if bool_decide ("."%char ∈ name) then Some name
            else Some (name ++ lit ".txt")) as Hcase.
  { intros [|c name] Hne; [done|]. unfold Scopy._set_outfile, Py.find, Py.adjust.
    change (0 <? 0) with false. cbv iota.
    rewrite Z.min_l by apply len_nonneg. change (Z.to_nat 0) with 0%nat.
    rewrite drop_0.
    destruct (Z.eqb_spec (Py.find_from "." (c :: name) 0) (-1)) as [E|E].
    - apply find_from_absent in E; [|done]. by rewrite bool_decide_eq_false_2.
    - rewrite find_from_absent in E by done.
      rewrite bool_decide_eq_true_2; [done|]. by apply dec_stable. }
  split_and!.
  - by destruct outfile as [[|]|].
  - intros name -> Hne Hdot. rewrite Hcase by done. by rewrite bool_decide_eq_true_2.
  - intros name -> Hne Hdot. rewrite Hcase by done. by rewrite bool_decide_eq_false_2.
  - intros name result -> Hne. rewrite Hcase by done.
    case_bool_decide; intros [= <-]; [done|].
    apply elem_of_app. right. by left.
Qed.

Lemma set_outfile_extension_witness :
  Scopy._set_outfile None = None ∧
  Scopy._set_outfile (Some (lit "out.md")) = Some (lit "out.md") ∧
  Scopy._set_outfile (Some (lit "out")) = Some (lit "out" ++ lit ".txt").
Proof.
  split_and!.
  - apply (set_outfile_extension None). reflexivity.
  - apply (set_outfile_extension (Some (lit "out.md"))); [done|done|].
    vm_compute. do 3 right. by left.
  - apply (set_outfile_extension (Some (lit "out"))); [done|done|].
    vm_compute. intros H.
    repeat (apply elem_of_cons in H as [H|H]; [discriminate H|]).
    by apply elem_of_nil in H.
Defined.

(** X3: [_split] loses nothing: base and extension put together again
    are the file name, for every name, with or without a dot. *)
Theorem split_base_ext_rejoin (file : str) :
  (Scopy._split file).1 ++ (Scopy._split file).2 = file.
Proof. apply split_concat. Qed.

(** X4: with the extension set [__init__] builds, a file whose name has
    no dot never passes the filters, whatever the other options are; and
    every record discovery returns has an extension that starts with a
    dot. *)
Theorem dotless_file_never_listed (a : Scopy.args) (w w' : Py.world)
    (self : Scopy.scopy) :
  Scopy.init a w = (Py.Ok self, w') →
  (∀ file size, "."%char ∉ file →
     Scopy._satisfies_filters self (Scopy._split file).1 (Scopy._split file).2 size
     = false) ∧
  (∀ disk w1 w2 results r,
     Scopy.get_results self disk w1 = (Py.Ok (Some results), w2) →
     r ∈ results → ∃ rest, Scopy.r_ext r = "."%char :: rest).
Proof.
  unfold Scopy.init, mbind, Py.M_bind.
  destruct (Scopy._set_minsize (Scopy.a_minsize a) w) as [[n|e] w1] eqn:E; [|done].
  intros [= <- _]. split.
  - intros file size Hdot. unfold Scopy._satisfies_filters. cbn [Scopy.ext].
    rewrite bool_decide_eq_false_2; [by rewrite andb_false_r|].
    intros H%set_extensions_dotted. by apply split_dotless_ext in H.
  - intros disk w2 w3 results r Hres Hr. apply get_results_passes in Hres.
    apply (proj1 (list.Forall_forall _ _) Hres) in Hr as (Hext & _).
    cbn [Scopy.ext] in Hext. by apply set_extensions_dotted in Hext.
Qed.

Lemma dotless_file_never_listed_witness :
  ∃ self, Scopy.init Sample.cli Sample.w0 = (Py.Ok self, Sample.w0) ∧
          Scopy._satisfies_filters self (Scopy._split (lit "README")).1
            (Scopy._split (lit "README")).2 4096 = false.
Proof.
  eexists. split; [reflexivity|].
  apply (proj1 (dotless_file_never_listed Sample.cli Sample.w0 Sample.w0 _ eq_refl)).
  vm_compute. intros H.
  repeat (apply elem_of_cons in H as [H|H]; [discriminate H|]).
  by apply elem_of_nil in H.
Defined.

(** X5: [__init__] fails exactly on an empty minimum-size string, with
    [IndexError] and before anything is printed; on every other string it
    returns the attributes. *)
Theorem init_raises_only_on_empty_minsize (a : Scopy.args) (w : Py.world) :
  (Scopy.a_minsize a = [] → Scopy.init a w = (Py.Raise Py.IndexError, w)) ∧
  (Scopy.a_minsize a ≠ [] → ∃ self w', Scopy.init a w = (Py.Ok self, w')).
Proof.
  split.
  - intros Hnil. unfold Scopy.init, mbind, Py.M_bind. by rewrite Hnil.
  - apply init_ok.
Qed.

Lemma init_raises_only_on_empty_minsize_witness :
  ∃ self w', Scopy.init Sample.cli Sample.w0 = (Py.Ok self, w').
Proof.
  apply (proj2 (init_raises_only_on_empty_minsize Sample.cli Sample.w0)).
  discriminate.
Defined.

(** ** Discovery, continued *)

Section DiscoveryMore.
Import Py Scopy Spec.

Lemma search_entry_elem self directory acc entry r :
  r ∈ search_entry self directory acc entry ↔
  r ∈ acc ∨ ∃ file size, entry = File file size ∧
    _satisfies_filters self (_split file).1 (_split file).2 size = true ∧
    r = found directory file size.
Proof.
  destruct entry as [file size|name sub]; cbn [search_entry].
  - unfold found. destruct (_split file) as [filename e] eqn:Es. cbn [fst snd].
    destruct (_satisfies_filters self filename e size) eqn:E.
    + rewrite elem_of_app, list_elem_of_singleton. split.
      * intros [?| ->]; [by left|]. right. exists file, size. by rewrite Es.
      * intros [?|(f & s & [= <- <-] & _ & ->)]; [by left|].
        right. by rewrite Es.
    + split; [by left|]. intros [?|(f & s & [= <- <-] & Hs & _)]; [done|].
      rewrite Es in Hs. cbn [fst snd] in Hs. congruence.
  - split; [by left|]. by intros [?|(f & s & [=] & _)].
Qed.

Lemma search_fold_elem self directory listing acc r :
  r ∈ foldl (search_entry self directory) acc listing ↔
  r ∈ acc ∨ ∃ file size, File file size ∈ listing ∧
    _satisfies_filters self (_split file).1 (_split file).2 size = true ∧
    r = found directory file size.
Proof.
  revert acc. induction listing as [|entry listing IH]; intros acc; cbn [foldl].
  - split; [by left|]. intros [?|(f & s & H & _)]; [done|].
    by apply elem_of_nil in H.
  - rewrite IH, search_entry_elem. split.
    + intros [[?|(f & s & -> & Hs & ->)]|(f & s & Hin & Hs & ->)].
      * by left.
      * right. exists f, s. split_and!; [by left|done..].
      * right. exists f, s. split_and!; [by right|done..].
    + intros [?|(f & s & [<-|Hin]%elem_of_cons & Hs & ->)].
      * left. by left.
      * left. right. by exists f, s.
      * right. by exists f, s.
Qed.

Lemma search_directory_elem self directory listing r :
  r ∈ _search_directory self directory listing ↔
  ∃ file size, File file size ∈ listing ∧
    _satisfies_filters self (_split file).1 (_split file).2 size = true ∧
    r = found directory file size.
Proof.
  unfold _search_directory. rewrite search_fold_elem. split; [|by right].
  intros [H|?]; [by apply elem_of_nil in H|done].
Qed.

Lemma remove_first_sublist d dirs : remove_first d dirs `sublist_of` dirs.
Proof.
  induction dirs as [|x dirs IH]; cbn [remove_first]; [done|].
  destruct (bool_decide (x = d)); [by apply sublist_cons|by apply sublist_skip].
Qed.

Lemma remove_first_other d x dirs :
  x ∈ dirs → x ≠ d → x ∈ remove_first d dirs.
Proof.
  intros Hin Hne. induction dirs as [|y dirs IH]; cbn [remove_first]; [done|].
  apply elem_of_cons in Hin as [->|Hin].
  - rewrite bool_decide_eq_false_2 by done. by left.
  - case_bool_decide; [done|]. right. by apply IH.
Qed.

Lemma remove_first_fresh d pre rest :
  d ∉ pre → remove_first d (pre ++ d :: rest) = pre ++ rest.
Proof.
  induction pre as [|x pre IH]; intros Hd; cbn [app remove_first].
  - by rewrite bool_decide_eq_true_2.
  - apply not_elem_of_cons in Hd as [Hne Hd].
    rewrite bool_decide_eq_false_2 by done. by rewrite IH.
Qed.

Lemma ignore_loop_sublist self fuel i dirs :
  ignore_loop self fuel i dirs `sublist_of` dirs.
Proof.
  revert i dirs. induction fuel as [|fuel IH]; intros i dirs; cbn [ignore_loop];
    [done|].
  destruct (dirs !! i) as [d|]; [|done].
  destruct (ignored self d); [|apply IH].
  etrans; [apply IH|apply remove_first_sublist].
Qed.

Lemma ignore_loop_keeps self fuel i dirs x :
  x ∈ dirs → ignored self x = false → x ∈ ignore_loop self fuel i dirs.
Proof.
  revert i dirs. induction fuel as [|fuel IH]; intros i dirs Hin Hx;
    cbn [ignore_loop]; [done|].
  destruct (dirs !! i) as [d|]; [|done].
  destruct (ignored self d) eqn:Ed; [|by apply IH].
  apply IH; [|done]. apply remove_first_other; [done|]. congruence.
Qed.

Lemma ignore_loop_done self fuel i dirs :
  (length dirs <= i)%nat → ignore_loop self fuel i dirs = dirs.
Proof.
  intros Hlen. destruct fuel as [|fuel]; cbn [ignore_loop]; [done|].
  by rewrite lookup_ge_None_2.
Qed.

Lemma ignore_loop_prune self fuel pre suf :
  NoDup (pre ++ suf) → (length suf <= fuel)%nat →
  ignore_loop self fuel (length pre) (pre ++ suf) =
  pre ++ prune_skipping (ignored self) suf.
Proof.
  revert pre suf. induction fuel as [|fuel IH]; intros pre suf Hnd Hlen.
  - destruct suf; [done|simpl in Hlen; lia].
  - cbn [ignore_loop]. destruct suf as [|d rest].
    + rewrite lookup_ge_None_2 by (rewrite length_app; simpl; lia). done.
    + rewrite list_lookup_middle by done. cbn [prune_skipping].
      simpl in Hlen.
      destruct (ignored self d).
      * apply NoDup_app in Hnd as (Hpre & Hdisj & Hsuf).
        rewrite remove_first_fresh by (intros H; apply (Hdisj d H); by left).
        destruct rest as [|d' rest'].
        -- apply ignore_loop_done. rewrite length_app. simpl. lia.
        -- replace (pre ++ d' :: rest') with ((pre ++ [d']) ++ rest')
             by by rewrite <-app_assoc.
           replace (S (length pre)) with (length (pre ++ [d']))
             by (rewrite length_app; simpl; lia).
           rewrite IH; [by rewrite <-app_assoc| |simpl in Hlen; lia].
           rewrite <-app_assoc. cbn [app]. apply NoDup_app. split_and!.
           ++ done.
           ++ intros x Hx Hx'. apply (Hdisj x Hx). by right.
           ++ by apply NoDup_cons_1_2 in Hsuf.
      * replace (pre ++ d :: rest) with ((pre ++ [d]) ++ rest)
          by by rewrite <-app_assoc.
        replace (S (length pre)) with (length (pre ++ [d]))
          by (rewrite length_app; simpl; lia).
        rewrite IH; [by rewrite <-app_assoc| |lia].
        by rewrite <-app_assoc.
Qed.

Lemma ignore_directories_prune self dirs :
  NoDup dirs →
  _ignore_directories self dirs = prune_skipping (ignored self) dirs.
Proof.
  intros Hnd. unfold _ignore_directories.
  by apply (ignore_loop_prune self (length dirs) [] dirs).
Qed.

Lemma dir_names_elem name sub listing :
  Dir name sub ∈ listing → name ∈ dir_names listing.
Proof.
  intros Hin. unfold dir_names. apply list_elem_of_omap. by exists (Dir name sub).
Qed.

Lemma search_walk_here self path name listing r :
  r ∈ _search_directory self path listing →
  r ∈ search_walk self path (Dir name listing).
Proof. intros H. cbn [search_walk]. apply elem_of_app. by left. Qed.

Lemma search_walk_below self path name listing sub_name sub r :
  Dir sub_name sub ∈ listing →
  (match ignore self with
   | Some (_ :: _) => ignored self sub_name = false
   | _ => True
   end) →
  r ∈ search_walk self (path_join path sub_name) (Dir sub_name sub) →
  r ∈ search_walk self path (Dir name listing).
Proof.
  intros Hin Hok Hr. cbn [search_walk]. apply elem_of_app. right.
  apply list_elem_of_In, in_flat_map. exists (Dir sub_name sub).
  split; [by apply list_elem_of_In|].
  rewrite bool_decide_eq_true_2; [by apply list_elem_of_In|].
  pose proof (dir_names_elem _ _ _ Hin) as Hname.
  destruct (ignore self) as [[|word words]|]; [done| |done].
  by apply ignore_loop_keeps.
Qed.

End DiscoveryMore.

Section DiscoveryShape.
Import Py Scopy Spec.

Lemma located_found self path name listing file size dir :
  located (λ d, match ignore self with
                | Some (_ :: _) => ignored self d = false
                | _ => True
                end) path listing file size dir →
  _satisfies_filters self (_split file).1 (_split file).2 size = true →
  found dir file size ∈ search_walk self path (Dir name listing).
Proof.
  intros Hloc Hs. revert name.
  induction Hloc as [path listing file size Hin
                    |path listing sub_name sub file size dir Hin Hok _ IH];
    intros name.
  - apply search_walk_here, search_directory_elem. by exists file, size.
  - eapply search_walk_below; [done..|]. by apply IH.
Qed.

Lemma path_join_prefix path name :
  startswith name (lit "/") = false → ∃ rest, path_join path name = path ++ rest.
Proof.
  intros Hs. unfold path_join. rewrite Hs.
  destruct (bool_decide (path = []) || bool_decide (last path = Some "/"%char)); eauto.
Qed.

Lemma search_walk_prefix self r top :
  ∀ path, plain top = true → r ∈ search_walk self path top →
          ∃ rest, r_directory r = path ++ rest.
Proof.
  induction top as [name size|name listing IH] using node_nested_ind;
    intros path Hplain; cbn [search_walk].
  - intros H. by apply elem_of_nil in H.
  - cbn [plain] in Hplain. apply andb_true_iff in Hplain as [_ Hplain].
    rewrite forallb_forall in Hplain.
    intros [Hr|Hr]%elem_of_app.
    + apply search_directory_elem in Hr as (file & size & _ & _ & ->).
      exists []. by rewrite app_nil_r.
    + apply list_elem_of_In, in_flat_map in Hr as (sub & Hin & Hr).
      pose proof (Hplain sub Hin) as Hsub.
      apply list_elem_of_In in Hin.
      pose proof (proj1 (list.Forall_forall _ _) IH sub Hin) as IHsub.
      destruct sub as [|sub_name sub_listing]; [done|].
      case_bool_decide; [|done].
      apply list_elem_of_In, IHsub in Hr as [rest Hrest]; [|done].
      cbn [plain] in Hsub. apply andb_true_iff in Hsub as [Hname _].
      apply negb_true_iff in Hname.
      destruct (path_join_prefix path sub_name Hname) as [rest' Hjoin].
      exists (rest' ++ rest). by rewrite Hrest, Hjoin, <-app_assoc.
Qed.

Lemma slice_from_app (a rest : str) : slice_from (a ++ rest) (len a) = rest.
Proof.
  unfold slice_from, adjust, len. rewrite length_app.
  destruct (Z.ltb_spec (Z.of_nat (length a)) 0); [lia|].
  rewrite Z.min_l by lia. rewrite Nat2Z.id. apply drop_app_length.
Qed.

End DiscoveryShape.

(** X6: the non-recursive search returns a record for exactly the regular
    files of the listing that pass the filters: none is left out, and a
    subdirectory never gives a record; each record carries the split name,
    the size and the searched directory. *)
Theorem search_directory_exact (self : Scopy.scopy) (directory : str)
    (listing : list Scopy.node) (r : Scopy.file_record) :
  r ∈ Scopy._search_directory self directory listing ↔
  ∃ file size,
    Scopy.File file size ∈ listing ∧
    Scopy._satisfies_filters self (Scopy._split file).1 (Scopy._split file).2 size
      = true ∧
    r = {| Scopy.r_filename := (Scopy._split file).1;
           Scopy.r_ext := (Scopy._split file).2;
           Scopy.r_filesize := size; Scopy.r_directory := directory |}.
Proof. apply search_directory_elem. Qed.

(** X7: pruning only ever takes names away, keeps the others in their
    order, and never takes away a name that matches no ignore word. *)
Theorem ignore_directories_removes_only_matches (self : Scopy.scopy)
    (dirs : list str) :
  Scopy._ignore_directories self dirs `sublist_of` dirs ∧
  ∀ d, d ∈ dirs → Scopy.ignored self d = false →
       d ∈ Scopy._ignore_directories self dirs.
Proof.
  split.
  - apply ignore_loop_sublist.
  - intros d Hd Hi. by apply ignore_loop_keeps.
Qed.

Lemma ignore_directories_removes_only_matches_witness :
  lit "final" ∈
  Scopy._ignore_directories Sample.books [lit "draft1"; lit "final"; lit "draft2"].
Proof.
  apply (ignore_directories_removes_only_matches Sample.books).
  - apply elem_of_cons. right. apply elem_of_cons. by left.
  - reflexivity.
Defined.

(** X8: on names that are all different, as a listing gives them, the
    in-place pruning loop does this: it drops each name it finds matching
    and lets the name that follows a dropped one through untested. *)
Theorem ignore_directories_skips_after_removal (self : Scopy.scopy)
    (dirs : list str) :
  NoDup dirs →
  Scopy._ignore_directories self dirs =
  Spec.prune_skipping (Scopy.ignored self) dirs.
Proof.
  intros Hnd. unfold Scopy._ignore_directories.
  by apply (ignore_loop_prune self (length dirs) [] dirs).
Qed.

Lemma ignore_directories_skips_after_removal_witness :
  Scopy._ignore_directories Sample.books
    [lit "draft1"; lit "draft2"; lit "draft3"; lit "final"] =
  [lit "draft2"; lit "final"].
Proof.
  rewrite ignore_directories_skips_after_removal; [reflexivity|].
  apply (bool_decide_unpack (NoDup _)). vm_compute. exact I.
Defined.

(** X9: the recursive scan misses no file it can reach: a regular file
    that passes the filters and lies under the root through
    subdirectories none of which matches an ignore word (any
    subdirectories when no ignore list is given) is in the result, with
    the path of its directory. *)
Theorem search_all_reaches_unignored (self : Scopy.scopy)
    (listing : list Scopy.node) (file : str) (size : Z) (dir : str) :
  Spec.located (λ d, match Scopy.ignore self with
                     | Some (_ :: _) => Scopy.ignored self d = false
                     | _ => True
                     end) (Scopy.directory self) listing file size dir →
  Scopy._satisfies_filters self (Scopy._split file).1 (Scopy._split file).2 size
    = true →
  {| Scopy.r_filename := (Scopy._split file).1;
     Scopy.r_ext := (Scopy._split file).2;
     Scopy.r_filesize := size; Scopy.r_directory := dir |}
  ∈ Scopy._search_all self listing.
Proof. intros Hloc Hs. by apply (located_found self). Qed.

(** X10: every record of a scan lies at or below the root: its directory
    is the root path followed by a remainder, empty for the non-recursive
    scan, and that remainder is what [format_results] cuts out as the
    relative path. *)
Theorem discovered_directory_below_root (self : Scopy.scopy)
    (listing : list Scopy.node) (w w' : Py.world)
    (results : list Scopy.file_record) (r : Scopy.file_record) :
  forallb Spec.plain listing = true →
  Scopy.get_results self (Some listing) w = (Py.Ok (Some results), w') →
  r ∈ results →
  ∃ rest,
    Scopy.r_directory r = Scopy.directory self ++ rest ∧
    Py.slice_from (Scopy.r_directory r) (Py.len (Scopy.directory self)) = rest ∧
    (Scopy.no_subs self = true → rest = []).
Proof.
  intros Hplain [= <- _] Hr. destruct (Scopy.no_subs self).
  - apply search_directory_elem in Hr as (file & size & _ & _ & ->).
    exists []. cbn [Scopy.r_directory Spec.found].
    split_and!; [by rewrite app_nil_r| |done].
    rewrite <-(app_nil_r (Scopy.directory self)) at 1. apply slice_from_app.
  - apply search_walk_prefix in Hr as [rest Hrest]; [|done].
    exists rest. rewrite Hrest. split_and!; [done|apply slice_from_app|done].
Qed.

(** ** Sorting, continued *)

Section SortMore.
Import Py Scopy Spec.

Lemma filter_all {A} (P : A → Prop) `{∀ x, Decision (P x)} (l : list A) :
  (∀ x, x ∈ l → P x) → filter P l = l.
Proof.
  induction l as [|x l IH]; intros Hall; [done|].
  rewrite filter_cons_True by (apply Hall; by left).
  f_equal. apply IH. intros y Hy. apply Hall. by right.
Qed.

Lemma sort_results_tied self results :
  (∀ x y, x ∈ results → y ∈ results → tied (sort_by self) x y) →
  sort_results self results = results.
Proof.
  intros Htied. destruct results as [|a results];
    [unfold sort_results, sorted; by destruct (descending self)|].
  pose proof (sorted_stable (sort_order self) (lex_compare (sort_by self))
                (list_lt_sort_order self) (lex_compare_eq_l _) a
                (descending self) (a :: results)) as Hst.
  pose proof (sorted_Permutation (sort_order self) (descending self) (a :: results))
    as Hperm.
  fold (sort_results self (a :: results)) in Hst, Hperm.
  rewrite (filter_all _ (a :: results)) in Hst
    by (intros y Hy; apply Htied; [by left|done]).
  rewrite filter_all in Hst; [done|].
  intros y Hy. rewrite Hperm in Hy. apply Htied; [by left|done].
Qed.

End SortMore.

(** X11: when all the records are tied on the keys, in particular when
    the key list is empty, [sort_results] returns its input unchanged,
    descending or not. *)
Theorem sort_results_all_tied (self : Scopy.scopy) (results : list Scopy.file_record) :
  ((∀ x y, x ∈ results → y ∈ results → Spec.tied (Scopy.sort_by self) x y) →
   Scopy.sort_results self results = results) ∧
  (Scopy.sort_by self = [] → Scopy.sort_results self results = results).
Proof.
  split.
  - apply sort_results_tied.
  - intros Hnil. apply sort_results_tied. intros x y _ _.
    unfold Spec.tied. by rewrite Hnil.
Qed.

Lemma sort_results_all_tied_witness :
  Scopy.sort_results Sample.by_ext_desc
    [Sample.rec "b" ".pdf" 1 "lib"; Sample.rec "a" ".pdf" 2 "lib"] =
  [Sample.rec "b" ".pdf" 1 "lib"; Sample.rec "a" ".pdf" 2 "lib"].
Proof.
  apply (proj1 (sort_results_all_tied Sample.by_ext_desc _)).
  intros x y Hx Hy. unfold Spec.tied.
  repeat (apply elem_of_cons in Hx as [->|Hx]);
    repeat (apply elem_of_cons in Hy as [->|Hy]);
    try reflexivity; try (by apply elem_of_nil in Hx); by apply elem_of_nil in Hy.
Defined.

(** ** The display name *)

Section ReplaceFacts.
Import Py Scopy.

Lemma letter_not_filler c :
  isalpha c = true →
  is_filler c = false ∧ is_filler (lower_char c) = false ∧
  is_filler (upper_char c) = false ∧ is_filler " "%char = false.
Proof.
  destruct c as [[] [] [] [] [] [] [] []]; intros H; try discriminate H;
    vm_compute; done.
Qed.

Lemma title_from_filler b s :
  Forall (λ c, is_filler c = false) s →
  Forall (λ c, is_filler c = false) (title_from b s).
Proof.
  intros Hs. revert b. induction Hs as [|c s Hc Hs IH]; intros b;
    cbn [title_from]; [constructor|].
  destruct (isalpha c) eqn:E.
  - apply letter_not_filler in E as (_ & Hl & Hu & _).
    constructor; [by destruct b|apply IH].
  - constructor; [done|apply IH].
Qed.

Lemma split_words_filler word s :
  Forall (λ c, is_filler c = false) word →
  Forall (λ c, is_filler c = false) s →
  Forall (Forall (λ c, is_filler c = false)) (split_words word s).
Proof.
  intros Hw Hs. revert word Hw.
  induction Hs as [|c s Hc Hs IH]; intros word Hw; cbn [split_words].
  - destruct word; repeat constructor; by inversion Hw.
  - destruct (is_space c).
    + destruct word as [|c0 word]; [by apply IH|].
      constructor; [done|by apply IH].
    + apply IH. apply Forall_app. split; [done|by constructor].
Qed.

Lemma join_filler (sep : str) (parts : list str) :
  Forall (λ c, is_filler c = false) sep →
  Forall (Forall (λ c, is_filler c = false)) parts →
  Forall (λ c, is_filler c = false) (join sep parts).
Proof.
  intros Hsep Hparts. induction Hparts as [|p ps Hp Hps IH]; cbn [join];
    [constructor|].
  destruct ps as [|q ps]; [done|].
  apply Forall_app. split; [done|]. apply Forall_app. by split.
Qed.

Lemma replace_symbols_filler filename :
  Forall (λ c, is_filler c = false) (_replace_symbols filename).
Proof.
  unfold _replace_symbols, title, split.
  apply title_from_filler, join_filler; [by repeat constructor|].
  apply split_words_filler; [constructor|].
  apply Forall_fmap, Forall_true. intros c. simpl.
  by destruct (is_filler c) eqn:E.
Qed.

Lemma title_from_nonempty b s : s ≠ [] → title_from b s ≠ [].
Proof. destruct s as [|c s]; [done|]. intros _. cbn [title_from]. by destruct (isalpha c). Qed.

Lemma title_from_space b s : " "%char ∉ s → " "%char ∉ title_from b s.
Proof.
  revert b. induction s as [|c s IH]; intros b Hs; cbn [title_from]; [done|].
  apply not_elem_of_cons in Hs as [Hc Hs].
  destruct (isalpha c) eqn:E; apply not_elem_of_cons; (split; [|by apply IH]); [|done].
  revert E. clear. destruct c as [[] [] [] [] [] [] [] []]; intros H; try discriminate H;
    by destruct b.
Qed.

Lemma title_from_sep b word rest :
  title_from b (word ++ " "%char :: rest) =
  title_from b word ++ " "%char :: title_from false rest.
Proof.
  revert b. induction word as [|c word IH]; intros b; cbn [app title_from]; [done|].
  destruct (isalpha c); cbn [app]; by rewrite IH.
Qed.

Lemma title_from_join b word words :
  title_from b (join (lit " ") (word :: words)) =
  join (lit " ") (title_from b word :: (title_from false <$> words)).
Proof.
  revert b word. induction words as [|word' words IH]; intros b word; [done|].
  change (join (lit " ") (word :: word' :: words))
    with (word ++ " "%char :: join (lit " ") (word' :: words)).
  rewrite title_from_sep, IH. reflexivity.
Qed.

Lemma split_words_spaced word s :
  " "%char ∉ word →
  Forall (λ w, w ≠ [] ∧ " "%char ∉ w) (split_words word s).
Proof.
  revert word. induction s as [|c s IH]; intros word Hw; cbn [split_words].
  - destruct word; repeat constructor; done.
  - destruct (is_space c) eqn:E.
    + destruct word as [|c0 word]; [by apply IH|].
      constructor; [done|]. apply IH, not_elem_of_nil.
    + apply IH. rewrite elem_of_app, list_elem_of_singleton.
      intros [?| <-]; [done|]. discriminate E.
Qed.

Lemma replace_symbols_words filename :
  ∃ words : list str,
    _replace_symbols filename = join (lit " ") words ∧
    Forall (λ w, w ≠ [] ∧ " "%char ∉ w) words.
Proof.
  unfold _replace_symbols, title, split.
  pose proof (split_words_spaced []
                ((λ c, if is_filler c then " "%char else c) <$> filename)
                (not_elem_of_nil _)) as Hws.
  destruct (split_words [] _) as [|word words]; [by exists []|].
  rewrite title_from_join. eexists. split; [reflexivity|].
  apply Forall_cons in Hws as [[Hne Hsp] Hws]. constructor.
  - split; [by apply title_from_nonempty|by apply title_from_space].
  - apply Forall_fmap. eapply Forall_impl; [exact Hws|].
    intros w [Hne' Hsp']. split; [by apply title_from_nonempty|by apply title_from_space].
Qed.

End ReplaceFacts.

(** X12: the display name [_replace_symbols] builds holds none of the
    filler symbols [. $ % _ -], and it is made of words that are not empty
    and hold no space, joined by one space each: it neither starts nor
    ends with a space and has no two spaces in a row. *)
Theorem replace_symbols_clean (filename : str) :
  (∀ c, c ∈ Scopy._replace_symbols filename → c ∉ lit ".$%_-") ∧
  ∃ words : list str,
    Scopy._replace_symbols filename = Py.join (lit " ") words ∧
    Forall (λ w : str, w ≠ [] ∧ " "%char ∉ w) words.
Proof.
  split; [|apply replace_symbols_words].
  intros c Hc.
  pose proof (proj1 (list.Forall_forall _ _) (replace_symbols_filler filename) c Hc)
    as H.
  unfold Scopy.is_filler in H. by apply bool_decide_eq_false in H.
Qed.

Lemma replace_symbols_clean_witness : "B"%char ∉ lit ".$%_-".
Proof.
  apply (proj1 (replace_symbols_clean (lit "My-Book_01"))).
  vm_compute. do 3 right. by left.
Defined.

(** ** The size column and the width of a row *)

Section WidthFacts.
Import Py Scopy.

Lemma round_half_even_small (q : Q) :
  (0 <= q)%Q → (q < 1024)%Q → 0 <= round_half_even q <= 1024.
Proof.
  intros H0 H1. unfold round_half_even.
  pose proof (Qfloor_resp_le _ _ H0) as Hf0. change (Qfloor 0) with 0 in Hf0.
  pose proof (Qfloor_le q) as Hfq.
  assert (Qfloor q < 1024) as Hf1.
  { rewrite Zlt_Qlt. eapply Qle_lt_trans; [exact Hfq|exact H1]. }
  destruct (q - inject_Z (Qfloor q) ?= 1 # 2)%Q; [destruct (Z.even _)|..]; lia.
Qed.

Lemma pretty_small (z : Z) : 0 <= z <= 1024 → (length (lit (pretty z)) <= 4)%nat.
Proof.
  intros Hz.
  assert (forallb (λ n, length (lit (pretty (Z.of_nat n))) <=? 4)%nat
            (seq 0 1025) = true) as Hall by (vm_compute; reflexivity).
  rewrite forallb_forall in Hall.
  specialize (Hall (Z.to_nat z)). rewrite Z2Nat.id in Hall by lia.
  apply Nat.leb_le, Hall, in_seq. lia.
Qed.

Lemma rjust_length w s : length (rjust w s) = (w `max` length s)%nat.
Proof. unfold rjust. rewrite length_app, length_replicate. lia. Qed.

Lemma ljust_length_max w s : length (ljust w s) = (w `max` length s)%nat.
Proof. unfold ljust. rewrite length_app, length_replicate. lia. Qed.

Lemma format_3_0f_small (q : Q) :
  (0 <= q)%Q → (q < 1024)%Q → (3 <= length (format_3_0f q) <= 4)%nat.
Proof.
  intros H0 H1. unfold format_3_0f. rewrite rjust_length.
  pose proof (pretty_small _ (round_half_even_small q H0 H1)). lia.
Qed.

Lemma convert_loop_length units (q : Q) s :
  Forall (λ u : str, (length u <= 2)%nat) units → (0 <= q)%Q →
  convert_loop units q = Some s → (6 <= length s <= 7)%nat.
Proof.
  intros Hu. revert q s. induction Hu as [|u units Hlen _ IH]; intros q s Hq;
    cbn [convert_loop]; [done|].
  destruct (q ?= 1024)%Q eqn:E.
  - apply IH. unfold Qdiv. change (/ 1024)%Q with (1 # 1024)%Q. lra.
  - apply Qlt_alt in E. intros [= <-].
    rewrite length_app. cbn [app length lit String.list_ascii_of_string].
    rewrite rjust_length.
    pose proof (format_3_0f_small q Hq E). lia.
  - apply IH. unfold Qdiv. change (/ 1024)%Q with (1 # 1024)%Q. lra.
Qed.

Lemma convert_bytes_length size s :
  0 <= size → _convert_bytes size = Some s → (6 <= length s <= 7)%nat.
Proof.
  intros Hs. unfold _convert_bytes. apply convert_loop_length.
  - repeat constructor.
  - change 0%Q with (inject_Z 0). by rewrite <-Zle_Qle.
Qed.

Lemma trimmed_name_length self filename path :
  (length (_trimmed self filename path).1 <= 50)%nat.
Proof.
  unfold _trimmed. cbn [fst].
  set (shown := if raw self then filename else _replace_symbols filename).
  unfold MAX_WIDTH, len.
  destruct (Z.ltb_spec 50 (Z.of_nat (length shown))); [|lia].
  change (50 - 3) with (Z.of_nat 47). rewrite slice_to_take by lia.
  rewrite length_app, length_take. change (length (lit "...")) with 3%nat. lia.
Qed.

Lemma trimmed_path_length self filename path :
  (length (_trimmed self filename path).2 <= 50)%nat.
Proof.
  unfold _trimmed. cbn [snd].
  set (relative := replace (slice_from path (len (directory self))) "\" "/").
  unfold MAX_WIDTH, len.
  destruct (Z.ltb_spec 50 (Z.of_nat (length relative))); [|lia].
  rewrite length_app. change (length (lit "...")) with 3%nat.
  pose proof (shorten_fits relative). lia.
Qed.

Lemma columns_length a0 a1 a2 a3 :
  length (COLUMNS a0 a1 a2 a3) =
  ((50 `max` length a0) + (8 `max` length a2) + (8 `max` length a3) +
   length a1 + 3)%nat.
Proof.
  unfold COLUMNS. rewrite !length_app, !ljust_length_max.
  change (length (lit " ")) with 1%nat. change (Z.to_nat MAX_WIDTH) with 50%nat.
  lia.
Qed.

End WidthFacts.

(** X13: for a size from 0 up to 1024^5 - 1, [_convert_bytes] picks the
    unit by the range the size falls in (B below 1024, KB below 1024^2,
    MB, GB, TB) and prints the size divided by 1024 once per step; the
    string is 6 or 7 characters long, so it fits its column of 8. *)
Theorem convert_bytes_unit_by_range (size : Z) :
  (size < 1024 →
   Scopy._convert_bytes size =
   Some (Py.format_3_0f (inject_Z size) ++ lit "  B")) ∧
  (1024 <= size < 1024 ^ 2 →
   Scopy._convert_bytes size =
   Some (Py.format_3_0f (inject_Z size / 1024) ++ lit " KB")) ∧
  (1024 ^ 2 <= size < 1024 ^ 3 →
   Scopy._convert_bytes size =
   Some (Py.format_3_0f (inject_Z size / 1024 / 1024) ++ lit " MB")) ∧
  (1024 ^ 3 <= size < 1024 ^ 4 →
   Scopy._convert_bytes size =
   Some (Py.format_3_0f (inject_Z size / 1024 / 1024 / 1024) ++ lit " GB")) ∧
  (1024 ^ 4 <= size < 1024 ^ 5 →
   Scopy._convert_bytes size =
   Some (Py.format_3_0f (inject_Z size / 1024 / 1024 / 1024 / 1024) ++ lit " TB")) ∧
  (∀ s, 0 <= size → Scopy._convert_bytes size = Some s →
        (6 <= length s <= 7)%nat).
Proof.
  assert (∀ a b : Z, a <= size < b →
            (inject_Z a <= inject_Z size)%Q ∧ (inject_Z size < inject_Z b)%Q) as Hq.
  { intros a b [H1 H2]. by rewrite <-Zle_Qle, <-Zlt_Qlt. }
  split_and!.
  - intros H. rewrite Zlt_Qlt in H. change (inject_Z 1024) with 1024%Q in H.
    unfold Scopy._convert_bytes. cbn [Scopy.convert_loop].
    by apply Qlt_alt in H as ->.
  - intros [H1 H2]%Hq. unfold Scopy._convert_bytes. cbn [Scopy.convert_loop].
    change (inject_Z 1024) with 1024%Q in H1.
    change (inject_Z (1024 ^ 2)) with (1048576 # 1)%Q in H2.
    rewrite (compare_1024_le (inject_Z size)) by done.
    assert (inject_Z size / 1024 < 1024)%Q as ->%Qlt_alt; [|done].
    unfold Qdiv. change (/ 1024)%Q with (1 # 1024)%Q. lra.
  - intros [H1 H2]%Hq. unfold Scopy._convert_bytes. cbn [Scopy.convert_loop].
    change (inject_Z (1024 ^ 2)) with (1048576 # 1)%Q in H1.
    change (inject_Z (1024 ^ 3)) with (1073741824 # 1)%Q in H2.
    unfold Qdiv in *. change (/ 1024)%Q with (1 # 1024)%Q in *.
    rewrite !compare_1024_le by lra.
    assert (inject_Z size * (1 # 1024) * (1 # 1024) < 1024)%Q as ->%Qlt_alt; [lra|done].
  - intros [H1 H2]%Hq. unfold Scopy._convert_bytes. cbn [Scopy.convert_loop].
    change (inject_Z (1024 ^ 3)) with (1073741824 # 1)%Q in H1.
    change (inject_Z (1024 ^ 4)) with (1099511627776 # 1)%Q in H2.
    unfold Qdiv in *. change (/ 1024)%Q with (1 # 1024)%Q in *.
    rewrite !compare_1024_le by lra.
    assert (inject_Z size * (1 # 1024) * (1 # 1024) * (1 # 1024) < 1024)%Q
      as ->%Qlt_alt; [lra|done].
  - intros [H1 H2]%Hq. unfold Scopy._convert_bytes. cbn [Scopy.convert_loop].
    change (inject_Z (1024 ^ 4)) with (1099511627776 # 1)%Q in H1.
    change (inject_Z (1024 ^ 5)) with (1125899906842624 # 1)%Q in H2.
    unfold Qdiv in *. change (/ 1024)%Q with (1 # 1024)%Q in *.
    rewrite !compare_1024_le by lra.
    assert (inject_Z size * (1 # 1024) * (1 # 1024) * (1 # 1024) * (1 # 1024) < 1024)%Q
      as ->%Qlt_alt; [lra|done].
  - intros s. apply convert_bytes_length.
Qed.

Lemma convert_bytes_unit_by_range_witness :
  Scopy._convert_bytes 5000 =
    Some (Py.format_3_0f (inject_Z 5000 / 1024) ++ lit " KB") ∧
  (6 <= length (lit "  5 KB") <= 7)%nat.
Proof.
  destruct (convert_bytes_unit_by_range 5000) as (_ & Hkb & _ & _ & _ & Hlen).
  split.
  - apply Hkb. lia.
  - apply Hlen; [lia|]. vm_compute. reflexivity.
Defined.

(** X14: a row of the table for a record of 0 to 1024^5 - 1 bytes is 61
    characters plus the extension column (8, or the extension's length if
    longer) plus the trimmed relative path; with an extension of at most 8
    characters the row is at most 119 characters wide: under 120, as the
    docstring of [format_results] promises. *)
Theorem format_row_width (self : Scopy.scopy) (r : Scopy.file_record) :
  0 <= Scopy.r_filesize r < 1024 ^ 5 →
  ∃ row,
    Scopy.format_row self r = Py.Ok row ∧
    length row =
      (61 + (8 `max` length (Scopy.r_ext r)) +
       length (Scopy._trimmed self (Scopy.r_filename r) (Scopy.r_directory r)).2)%nat ∧
    ((length (Scopy.r_ext r) <= 8)%nat → (length row <= 119)%nat).
Proof.
  intros [H0 H1]. unfold Scopy.format_row.
  pose proof (trimmed_name_length self (Scopy.r_filename r) (Scopy.r_directory r)) as Hn.
  pose proof (trimmed_path_length self (Scopy.r_filename r) (Scopy.r_directory r)) as Hp.
  destruct (Scopy._trimmed self (Scopy.r_filename r) (Scopy.r_directory r))
    as [name rel]. cbn [fst snd] in *.
  destruct (Scopy._convert_bytes (Scopy.r_filesize r)) as [s|] eqn:E.
  - pose proof (convert_bytes_length _ _ H0 E) as Hs.
    eexists. split; [done|]. rewrite columns_length. split; lia.
  - apply convert_bytes_none in E. lia.
Qed.

Lemma format_row_width_witness :
  ∃ row, Scopy.format_row Sample.books Sample.handbook = Py.Ok row ∧
         (length row <= 119)%nat.
Proof.
  destruct (format_row_width Sample.books Sample.handbook) as (row & Hrow & _ & Hw).
  - simpl. lia.
  - exists row. split; [exact Hrow|]. apply Hw. simpl. lia.
Defined.

(** ** The whole run *)

Section RunFacts.
Import Py Scopy.

(** The records [get_results] hands to [run] for a valid root. *)
Lemma get_results_valid self listing w :
  get_results self (Some listing) w =
  (Ok (Some (if no_subs self then _search_directory self (directory self) listing
             else _search_all self listing)), w).
Proof. reflexivity. Qed.

Lemma sort_results_sizes self results (P : Z → Prop) :
  (∀ r, r ∈ results → P (r_filesize r)) →
  ∀ r, r ∈ sort_results self results → P (r_filesize r).
Proof.
  intros Hall r Hr. apply Hall.
  unfold sort_results in Hr. by rewrite sorted_Permutation in Hr.
Qed.

Lemma run_steps self listing abspath w :
  run self (Some listing) abspath w =
  match (if no_subs self then _search_directory self (directory self) listing
         else _search_all self listing) with
  | [] => (Ok (), {| console := console w; files := files w;
                     calls := calls w ++ [GetResults] |})
  | r :: results =>
      match format_results self abspath (sort_results self (r :: results)) with
      | Raise e =>
          (Raise e, {| console := console w; files := files w;
                       calls := calls w ++ [GetResults; SortResults; FormatResults] |})
      | Ok report =>
          output_results self report
            {| console := console w; files := files w;
               calls := calls w ++
                 [GetResults; SortResults; FormatResults; OutputResults] |}
      end
  end.
Proof.
  unfold run, mbind, M_bind, enter. cbn [console files calls].
  rewrite get_results_valid.
  destruct (if no_subs self then _ else _) as [|r results]; [done|].
  cbn [console files calls]. unfold lift.
  rewrite <-!app_assoc. cbn [app].
  destruct (format_results self abspath (sort_results self (r :: results)));
    [|done].
  cbn [console files calls]. by rewrite <-app_assoc.
Qed.

End RunFacts.

(** X15: when a valid root holds no file that passes the filters, [run]
    stops after [get_results]: nothing is printed and no file is written,
    output file requested or not. *)
Theorem run_without_matches (self : Scopy.scopy) (listing : list Scopy.node)
    (abspath : str) (w : Py.world) :
  (if Scopy.no_subs self
   then Scopy._search_directory self (Scopy.directory self) listing
   else Scopy._search_all self listing) = [] →
  Scopy.run self (Some listing) abspath w =
  (Py.Ok (), {| Py.console := Py.console w; Py.files := Py.files w;
                Py.calls := Py.calls w ++ [Py.GetResults] |}).
Proof. intros H. rewrite run_steps. by rewrite H. Qed.

Lemma run_without_matches_witness :
  Scopy.run Sample.to_file (Some [Scopy.File (lit "notes.txt") 500]) [] Sample.w0 =
  (Py.Ok (), {| Py.console := []; Py.files := ∅; Py.calls := [Py.GetResults] |}).
Proof.
  apply (run_without_matches Sample.to_file [Scopy.File (lit "notes.txt") 500] []
           Sample.w0).
  vm_compute. reflexivity.
Defined.

(** X16: when discovery finds records and all are below 1024^5 bytes,
    [run] goes through all four stages and delivers the report once: with
    an output file it writes the report followed by the attribution footer
    to that file, overwriting it, touches no other file and prints only
    the confirmation; without one it prints the report and writes
    nothing. *)
Theorem run_delivers_report (self : Scopy.scopy) (listing : list Scopy.node)
    (abspath : str) (w : Py.world) :
  let results :=
    if Scopy.no_subs self
    then Scopy._search_directory self (Scopy.directory self) listing
    else Scopy._search_all self listing in
  results ≠ [] →
  (∀ r, r ∈ results → Scopy.r_filesize r < 1024 ^ 5) →
  ∃ report,
    Scopy.format_results self abspath (Scopy.sort_results self results) =
      Py.Ok report ∧
    Scopy.run self (Some listing) abspath w =
    (Py.Ok (),
     match Scopy.outfile self with
     | Some ((_ :: _) as name) =>
         {| Py.console := Py.console w ++ [lit "Results saved in " ++ name];
            Py.files :=
              <[name := report ++ replicate 3 "010"%char ++
                        lit "Created with Scopy. https://github.com/narimiran/scopy " ++
                        ["010"%char]]> (Py.files w);
            Py.calls := Py.calls w ++
              [Py.GetResults; Py.SortResults; Py.FormatResults; Py.OutputResults] |}
     | _ =>
         {| Py.console := Py.console w ++ [report]; Py.files := Py.files w;
            Py.calls := Py.calls w ++
              [Py.GetResults; Py.SortResults; Py.FormatResults; Py.OutputResults] |}
     end).
Proof.
  intros results Hne Hsizes.
  destruct (proj2 (format_results_ok self abspath (Scopy.sort_results self results)))
    as [report Hreport].
  { intros r Hr.
    exact (sort_results_sizes self results (λ z, z < 1024 ^ 5) Hsizes r Hr). }
  exists report. split; [done|].
  rewrite run_steps. fold results. destruct results as [|r rest]; [done|].
  rewrite Hreport. unfold Scopy.output_results.
  by destruct (Scopy.outfile self) as [[|c name]|].
Qed.

Lemma run_delivers_report_witness :
  ∃ report,
    Py.files (Scopy.run Sample.to_file (Some Sample.shelf) [] Sample.w0).2 =
    {[ lit "list.txt" :=
         report ++ replicate 3 "010"%char ++
         lit "Created with Scopy. https://github.com/narimiran/scopy " ++
         ["010"%char] ]}.
Proof.
  destruct (run_delivers_report Sample.to_file Sample.shelf [] Sample.w0)
    as (report & _ & Hrun).
  - vm_compute. discriminate.
  - intros r Hr. vm_compute in Hr.
    repeat (apply elem_of_cons in Hr as [->|Hr]; [vm_compute; reflexivity|]).
    by apply elem_of_nil in Hr.
  - exists report. rewrite Hrun. reflexivity.
Defined.

(** X17: when some discovered record is 1024^5 bytes or more, [run] ends
    with [TypeError] raised while formatting: nothing at all is printed or
    written, also for the other records, and [output_results] is never
    entered. *)
Theorem run_fails_on_huge_file (self : Scopy.scopy) (listing : list Scopy.node)
    (abspath : str) (w : Py.world) (r : Scopy.file_record) :
  r ∈ (if Scopy.no_subs self
       then Scopy._search_directory self (Scopy.directory self) listing
       else Scopy._search_all self listing) →
  1024 ^ 5 <= Scopy.r_filesize r →
  Scopy.run self (Some listing) abspath w =
  (Py.Raise Py.TypeError,
   {| Py.console := Py.console w; Py.files := Py.files w;
      Py.calls := Py.calls w ++
        [Py.GetResults; Py.SortResults; Py.FormatResults] |}).
Proof.
  intros Hr Hsize. rewrite run_steps.
  destruct (if Scopy.no_subs self then _ else _) as [|r0 rest] eqn:E;
    [by apply elem_of_nil in Hr|].
  assert (Scopy.format_results self abspath (Scopy.sort_results self (r0 :: rest)) =
          Py.Raise Py.TypeError) as ->; [|done].
  apply format_results_raise. exists r. split; [|done].
  unfold Scopy.sort_results. by rewrite sorted_Permutation.
Qed.

Lemma run_fails_on_huge_file_witness :
  Scopy.run Sample.to_file
    (Some [Scopy.File (lit "a.pdf") 10; Scopy.File (lit "dump.pdf") (1024 ^ 5)])
    [] Sample.w0 =
  (Py.Raise Py.TypeError,
   {| Py.console := []; Py.files := ∅;
      Py.calls := [Py.GetResults; Py.SortResults; Py.FormatResults] |}).
Proof.
  apply (run_fails_on_huge_file Sample.to_file _ [] Sample.w0 Sample.huge).
  - vm_compute. right. by left.
  - vm_compute. discriminate.
Defined.

(** X18: [main] on a root that is not a directory, with any non-empty
    minimum-size string, ends normally: it writes no file, enters only
    [get_results], and the last line it prints is the diagnostic, naming
    the directory with its backslashes turned into slashes. *)
Theorem main_invalid_directory (a : Scopy.args) (abspath : str) (w : Py.world) :
  Scopy.a_minsize a ≠ [] →
  ∃ w', Scopy.main a None abspath w = (Py.Ok (), w') ∧
        Py.files w' = Py.files w ∧
        Py.calls w' = Py.calls w ++ [Py.GetResults] ∧
        last (Py.console w') =
          Some (Py.replace (Scopy.a_directory a) "\"%char "/"%char ++
                lit " is not a valid directory!").
Proof.
  intros Hne. unfold Scopy.main, mbind, Py.M_bind.
  destruct (init_ok a w Hne) as (self & w1 & Hinit). rewrite Hinit.
  assert (Scopy.directory self = Py.replace (Scopy.a_directory a) "\"%char "/"%char
          ∧ Py.files w1 = Py.files w ∧ Py.calls w1 = Py.calls w) as (Hd & Hf & Hc).
  { revert Hinit. unfold Scopy.init, mbind, Py.M_bind, Scopy._set_minsize.
    destruct (last (Scopy.a_minsize a)) as [c|]; [|done].
    assert (∀ size multi n w2, Scopy.parse_size size multi w = (Py.Ok n, w2) →
              Py.files w2 = Py.files w ∧ Py.calls w2 = Py.calls w) as Hp.
    { intros size multi n w2. unfold Scopy.parse_size.
      destruct (Py.int size); intros [= _ <-]; done. }
    destruct (Py.isalpha c);
      match goal with
      | |- context [Scopy.parse_size ?s ?m w] =>
          destruct (Scopy.parse_size s m w) as [[n|e] w2] eqn:E; [|done];
          apply Hp in E as [? ?]; intros [= <- <-]; done
      end. }
  eexists. split; [reflexivity|]. cbn [Py.console Py.files Py.calls].
  rewrite Hd, Hf, Hc. split_and!; [done|done|]. by rewrite last_snoc.
Qed.

Lemma main_invalid_directory_witness :
  ∃ w', Scopy.main Sample.cli None [] Sample.w0 = (Py.Ok (), w') ∧
        Py.files w' = ∅.
Proof.
  destruct (main_invalid_directory Sample.cli [] Sample.w0) as (w' & H & Hf & _).
  - discriminate.
  - exists w'. split; [exact H|exact Hf].
Defined.

(** ** Witnesses for the reach and the root of a scan *)

Lemma search_all_reaches_unignored_witness :
  Sample.handbook ∈ Scopy._search_all Sample.filtered Sample.shelf.
Proof.
  apply (search_all_reaches_unignored Sample.filtered Sample.shelf
           (lit "handbook.pdf") 4096 (lit "lib/old")).
  - eapply (Spec.located_below _ _ _ (lit "old")).
    + apply elem_of_cons. right. apply elem_of_cons. right. apply elem_of_cons.
      by left.
    + exact I.
    + apply (Spec.located_here _ (lit "lib/old")). apply elem_of_cons. by left.
  - vm_compute. reflexivity.
Defined.

Lemma discovered_directory_below_root_witness :
  ∃ rest, Scopy.r_directory Sample.handbook = Scopy.directory Sample.filtered ++ rest ∧
          Py.slice_from (Scopy.r_directory Sample.handbook)
            (Py.len (Scopy.directory Sample.filtered)) = rest.
Proof.
  destruct (discovered_directory_below_root Sample.filtered Sample.shelf
              Sample.w0 Sample.w0 [Sample.my_book; Sample.handbook] Sample.handbook)
    as (rest & H1 & H2 & _).
  - reflexivity.
  - vm_compute. reflexivity.
  - apply elem_of_cons. right. apply elem_of_cons. by left.
  - exists rest. by split.
Defined.

(** ** What the pruning loop does guarantee *)

Section PruneFacts.
Import Py Scopy Spec.

Lemma prune_skipping_cons f x l :
  prune_skipping f (x :: l) =
  if f x then after_removal f l else x :: prune_skipping f l.
Proof. by destruct l. Qed.

Lemma prune_skipping_subseteq self l :
  NoDup l → prune_skipping (ignored self) l ⊆ l.
Proof.
  intros Hnd x Hx. rewrite <-ignore_directories_prune in Hx by done.
  eapply elem_of_sublist; [exact Hx|]. apply ignore_loop_sublist.
Qed.

Lemma after_removal_subseteq self l :
  NoDup l → after_removal (ignored self) l ⊆ l.
Proof.
  intros Hnd x. destruct l as [|y rest]; [done|]. cbn [after_removal].
  apply NoDup_cons in Hnd as [_ Hnd].
  intros [->|Hx]%elem_of_cons; [by left|].
  right. by apply (prune_skipping_subseteq self rest Hnd).
Qed.

Lemma prune_tested self d suf :
  NoDup (d :: suf) → ignored self d = true →
  d ∉ prune_skipping (ignored self) (d :: suf).
Proof.
  intros [Hd Hnd]%NoDup_cons Hm. rewrite prune_skipping_cons, Hm.
  intros H. by apply (after_removal_subseteq self suf Hnd) in H.
Qed.

Lemma prune_after_kept self pre p d suf :
  NoDup (pre ++ p :: d :: suf) →
  ignored self p = false → ignored self d = true →
  (d ∉ prune_skipping (ignored self) (pre ++ p :: d :: suf)) ∧
  (d ∉ after_removal (ignored self) (pre ++ p :: d :: suf)).
Proof.
  intros Hnd Hp Hd.
  assert (d ∉ p :: prune_skipping (ignored self) (d :: suf)) as Hbase.
  { apply NoDup_app in Hnd as (_ & _ & Hnd).
    apply NoDup_cons in Hnd as [Hpd Hnd].
    apply not_elem_of_cons. split; [|by apply prune_tested].
    intros ->. apply Hpd. by left. }
  induction pre as [|x pre IH].
  - cbn [app after_removal]. by rewrite prune_skipping_cons, Hp.
  - cbn [app] in *. apply NoDup_cons in Hnd as [Hx Hnd].
    destruct (IH Hnd) as [IHa IHb].
    assert (d ≠ x) as Hdx.
    { intros ->. apply Hx. apply elem_of_app. right. right. by left. }
    split.
    + rewrite prune_skipping_cons. destruct (ignored self x); [done|].
      by apply not_elem_of_cons.
    + cbn [after_removal]. by apply not_elem_of_cons.
Qed.

Lemma drop_segment_suffix p : drop_segment p `suffix_of` p.
Proof. unfold drop_segment, slice_from. apply suffix_drop. Qed.

Lemma shorten_suffix p : shorten p `suffix_of` p.
Proof.
  funelim (shorten p); [|done].
  etrans; [eassumption|apply drop_segment_suffix].
Qed.

End PruneFacts.

(** X19: among distinct names, a directory whose name matches an ignore
    word is pruned whenever it is the first name of the listing or comes
    right after a name that matches no ignore word. *)
Theorem ignore_directories_prunes_tested (self : Scopy.scopy) :
  (∀ d suf, NoDup (d :: suf) → Scopy.ignored self d = true →
     d ∉ Scopy._ignore_directories self (d :: suf)) ∧
  (∀ pre p d suf, NoDup (pre ++ p :: d :: suf) →
     Scopy.ignored self p = false → Scopy.ignored self d = true →
     d ∉ Scopy._ignore_directories self (pre ++ p :: d :: suf)).
Proof.
  split.
  - intros d suf Hnd Hd. rewrite ignore_directories_prune by done.
    by apply prune_tested.
  - intros pre p d suf Hnd Hp Hd. rewrite ignore_directories_prune by done.
    by apply prune_after_kept.
Qed.

Lemma ignore_directories_prunes_tested_witness :
  lit "draft2" ∉
  Scopy._ignore_directories Sample.books [lit "draft1"; lit "x"; lit "final"; lit "draft2"].
Proof.
  apply (proj2 (ignore_directories_prunes_tested Sample.books)
           [lit "draft1"; lit "x"] (lit "final") (lit "draft2") []).
  - apply (bool_decide_unpack (NoDup _)). vm_compute. exact I.
  - reflexivity.
  - reflexivity.
Defined.

(** X20: trimming a relative path never invents text: what follows the
    [...] marker is a tail of the full relative path, and a path of at
    most 50 characters is shown whole. *)
Theorem trimmed_path_is_tail (self : Scopy.scopy) (filename path : str) :
  let relative :=
    Py.replace (Py.slice_from path (Py.len (Scopy.directory self))) "\"%char "/"%char in
  ((50 < length relative)%nat →
     ∃ tail, (Scopy._trimmed self filename path).2 = lit "..." ++ tail ∧
             tail `suffix_of` relative) ∧
  ((length relative <= 50)%nat →
     (Scopy._trimmed self filename path).2 = relative).
Proof.
  intros relative. unfold Scopy._trimmed. cbn [snd]. fold relative.
  unfold Scopy.MAX_WIDTH, Py.len. split; intros H.
  - destruct (Z.ltb_spec 50 (Z.of_nat (length relative))); [|lia].
    exists (Scopy.shorten relative). split; [done|apply shorten_suffix].
  - destruct (Z.ltb_spec 50 (Z.of_nat (length relative))); [lia|done].
Qed.

Lemma trimmed_path_is_tail_witness :
  ∃ tail, (Scopy._trimmed Sample.books Sample.long_name Sample.long_path).2 =
          lit "..." ++ tail.
Proof.
  destruct (proj1 (trimmed_path_is_tail Sample.books Sample.long_name Sample.long_path))
    as (tail & H & _).
  - vm_compute. lia.
  - by exists tail.
Defined.
